(** * ib_client.core: retrying transport and session life cycle

    A shallow embedding of [src/ib_client/core/http.py] and
    [src/ib_client/core/session.py].

    Conventions of the model.
    - Python [int] is [Z].  A Python [float] (delays, clock readings) is
      the rational number it denotes, a [Q].  The one float operation of
      the transport, [retry_delay * (2 ** attempt)], converts the integer
      to a float first: that raises [OverflowError] from [2 ** 1024] on,
      which the model has, and below it the scaling by a power of two is
      exact as long as the product is a finite float.  The age of the
      cached check, [current_time - self._last_auth_check], is a float
      subtraction, which rounds to the nearest float where the model
      subtracts exactly; rounding keeps the order of two ages and leaves
      the interval, an integer, as it is.
    - Python [str] is [string], taken as a sequence of bytes; [str.lower] is
      the ASCII lower-casing, which is what decides whether the ASCII word
      [timeout] occurs in a message.
    - Everything the program does to the outside world is recorded, in
      chronological order, in a trace of events: each [client.request] with
      the loop variable [attempt] and what came back, and each
      [asyncio.sleep].  The gateway and the network are a function [env] from
      the trace so far (and the request) to what the next request produces.
    - A raised exception is the [Err] case of a result; [logger] calls are
      not modelled. *)

From Stdlib Require Import ZArith QArith Qpower List String Ascii Bool Lia Lqa.
From Stdlib Require Import DecimalString.
Import ListNotations.

Local Open Scope string_scope.
Local Open Scope Z_scope.
Local Open Scope list_scope.

(** ** Strings as Python uses them here *)

Module PyStr.

(** [str(n)] for an [int]. *)
Definition str_of_int (n : Z) : string := NilZero.string_of_int (Z.to_int n).

Definition lower_ascii (c : ascii) : ascii :=
  let n := nat_of_ascii c in
  if (Nat.leb 65 n && Nat.leb n 90)%bool then ascii_of_nat (n + 32) else c.

(** [s.lower()] *)
Fixpoint lower (s : string) : string :=
  match s with
  | EmptyString => EmptyString
  | String c s' => String (lower_ascii c) (lower s')
  end.

Fixpoint starts_with (p s : string) : bool :=
  match p, s with
  | EmptyString, _ => true
  | String _ _, EmptyString => false
  | String a p', String b s' => Ascii.eqb a b && starts_with p' s'
  end.

(** [needle in s] *)
Fixpoint contains (needle s : string) : bool :=
  starts_with needle s
  || match s with
     | EmptyString => false
     | String _ s' => contains needle s'
     end.

(** [not s] *)
Definition is_empty (s : string) : bool :=
  match s with EmptyString => true | String _ _ => false end.

End PyStr.

(** ** JSON values as [response.json()] returns them *)

#[local] Set Warnings "-register-all".

Inductive json : Type :=
| JNull
| JBool (b : bool)
| JInt (n : Z)
| JFloat (x : Q)
| JStr (s : string)
| JArray (items : list json)
| JObject (items : list (string * json)).

(** The items of a [JObject] are those of the Python [dict]: a key occurs at
    most once, and a lookup returns the value stored under it. *)
Fixpoint assoc (k : string) (items : list (string * json)) : option json :=
  match items with
  | [] => None
  | (k', v) :: rest => if String.eqb k k' then Some v else assoc k rest
  end.

(** Python truth value of a JSON value, as [not v] tests it. *)
Definition truthy (v : json) : bool :=
  match v with
  | JNull => false
  | JBool b => b
  | JInt n => negb (n =? 0)
  | JFloat x => negb (Qeq_bool x 0)
  | JStr s => negb (PyStr.is_empty s)
  | JArray items => match items with [] => false | _ :: _ => true end
  | JObject items => match items with [] => false | _ :: _ => true end
  end.

(** ** Exceptions *)

Inductive exn : Type :=
| IBAPIError (message : string) (status_code : option Z)
| RequestError (message : string)       (* httpx.RequestError and subclasses *)
| HTTPStatusError (message : string)    (* raised by response.raise_for_status() *)
| AttributeError (message : string)
| RecursionError
| OtherException (message : string).    (* any other subclass of Exception *)

(** [str(e)] *)
Definition str_of_exn (e : exn) : string :=
  match e with
  | IBAPIError m _ => m
  | RequestError m => m
  | HTTPStatusError m => m
  | AttributeError m => m
  | RecursionError => "maximum recursion depth exceeded"
  | OtherException m => m
  end.

Inductive result (A : Type) : Type :=
| Ok (v : A)
| Err (e : exn).
Arguments Ok {A} v.
Arguments Err {A} e.

Definition is_ok {A} (r : result A) : bool :=
  match r with Ok _ => true | Err _ => false end.

(** ** What the HTTP client gives back *)

(** An [httpx.Response] as far as the transport looks at it: the status code,
    the body bytes, what [response.json()] does on that body (the parsed
    value, or the message of the exception it raises), and the text of the
    [HTTPStatusError] that [raise_for_status] builds from the reason phrase
    and the URL when the status is not a success. *)
Record Response : Type := mkResponse {
  status_code : Z;
  content : string;
  json_body : string + json;
  status_error_text : string
}.

(** Outcome of one [await client.request(...)]. *)
Inductive raw_outcome : Type :=
| Responded (r : Response)
| RequestFailed (message : string)   (* an httpx.RequestError was raised *)
| Crashed (message : string).        (* some other Exception was raised *)

Inductive event : Type :=
| Attempt (method path : string) (attempt : Z) (out : raw_outcome)
| Sleep (seconds : Q).

Definition trace := list event.

(** The gateway and the network: given everything that happened so far and
    the request, what [client.request] produces. *)
Definition environment := trace -> string -> string -> raw_outcome.

(** ** http.py *)

Module Http.

(** [response.is_success] *)
Definition is_success (r : Response) : bool :=
  (200 <=? status_code r) && (status_code r <=? 299).

(** [response.raise_for_status()]: [None] when it returns, which it does
    for a 2xx status only. *)
Definition raise_for_status (r : Response) : option exn :=
  if is_success r then None else Some (HTTPStatusError (status_error_text r)).

(** The source multiplies by the literal [2 ** attempt]. *)
Definition backoff_multiplier : Z := 2.

(** The value of [retry_delay * (2 ** attempt)] when the product can be
    formed, that is for [attempt < 1024]. *)
Definition backoff (retry_delay : Q) (attempt : Z) : Q :=
  retry_delay * inject_Z (backoff_multiplier ^ attempt).

(** First [attempt] for which [2 ** attempt] is too large to be converted
    to a float: the largest finite float is below [2 ** 1024]. *)
Definition float_overflow_attempt : Z := 1024.

(** The [OverflowError] of the conversion; as an [Exception] that is
    neither an [httpx.RequestError] nor an [IBAPIError] it is told apart
    from others by its message only. *)
Definition overflow_error : exn := OtherException "int too large to convert to float".

(** How one pass through the loop body ends. *)
Inductive pass : Type :=
| Return (v : json)
| Raise (e : exn)
| Continue (seconds : Q).  (* [await asyncio.sleep(seconds); continue] *)

(** [await asyncio.sleep(retry_delay * (2 ** attempt))] followed by
    [continue]: the argument is evaluated first, and its [OverflowError]
    is raised where the statement stands. *)
Definition sleep_and_continue (retry_delay : Q) (attempt : Z) : pass :=
  if float_overflow_attempt <=? attempt then Raise overflow_error
  else Continue (backoff retry_delay attempt).

(** The statements inside [try:], once [client.request] has produced
    [out]. *)
Definition try_block (max_retries : Z) (retry_delay : Q) (attempt : Z)
           (out : raw_outcome) : pass :=
  match out with
  | RequestFailed m => Raise (RequestError m)
  | Crashed m => Raise (OtherException m)
  | Responded r =>
      if status_code r =? 401 then
        Raise (IBAPIError "Authentication required" (Some 401))
      else if status_code r =? 403 then
        Raise (IBAPIError "Access forbidden" (Some 403))
      else if (500 <=? status_code r)
              && (attempt <? max_retries) then
        sleep_and_continue retry_delay attempt
      else if 500 <=? status_code r then
        Raise (IBAPIError ("Server error: " ++ PyStr.str_of_int (status_code r))%string
                          (Some (status_code r)))
      else
        match raise_for_status r with
        | Some e => Raise e
        | None =>
            if PyStr.is_empty (content r) then Return (JObject [])
            else match json_body r with
                 | inr v => Return v
                 | inl m => Raise (OtherException m)
                 end
        end
  end.

(** The two [except] clauses, applied to what the [try] block raised; an
    exception raised inside a clause leaves the function. *)
Definition handlers (max_retries : Z) (retry_delay : Q) (attempt : Z)
           (e : exn) : pass :=
  match e with
  | RequestError m =>
      if attempt <? max_retries then sleep_and_continue retry_delay attempt
      else Raise (IBAPIError ("Request failed after " ++ PyStr.str_of_int max_retries
                                ++ " retries: " ++ m)%string None)
  | _ =>
      if (attempt <? max_retries)
         && PyStr.contains "timeout" (PyStr.lower (str_of_exn e))
      then sleep_and_continue retry_delay attempt
      else Raise e
  end.

Definition loop_body (max_retries : Z) (retry_delay : Q) (attempt : Z)
           (out : raw_outcome) : pass :=
  match try_block max_retries retry_delay attempt out with
  | Raise e => handlers max_retries retry_delay attempt e
  | p => p
  end.

Section Transport.
Variable env : environment.

(** [for attempt in range(max_retries + 1)], with [remaining] passes
    still to run, the next one numbered [attempt]. *)
Fixpoint retry_loop (method path : string) (max_retries : Z) (retry_delay : Q)
         (remaining : nat) (attempt : Z) (t : trace) : result json * trace :=
  match remaining with
  | O => (Err (IBAPIError ("Max retries (" ++ PyStr.str_of_int max_retries
                             ++ ") exceeded")%string None), t)
  | S remaining' =>
      let out := env t method path in
      let t1 := t ++ [Attempt method path attempt out] in
      match loop_body max_retries retry_delay attempt out with
      | Return v => (Ok v, t1)
      | Raise e => (Err e, t1)
      | Continue d =>
          retry_loop method path max_retries retry_delay
                     remaining' (attempt + 1) (t1 ++ [Sleep d])
      end
  end.

Definition _request_with_retry (method path : string) (max_retries : Z)
           (retry_delay : Q) (t : trace) : result json * trace :=
  retry_loop method path max_retries retry_delay
             (Z.to_nat (max_retries + 1)) 0 t.

(** [_post(path)] with no body and no parameters, the only way the
    session code calls it; [max_retries] and [retry_delay] take their
    defaults. *)
Definition _post (path : string) (t : trace) : result json * trace :=
  _request_with_retry "POST" path 3 1 t.

End Transport.

End Http.

(** ** session.py *)

(** An [asyncio.Task] running [_keep_alive_loop] is either still suspended in
    the loop or has finished. *)
Inductive task_state : Type := Running | Done.

(** The attributes [__init__] sets; [_keep_alive_task] holds the handle of a
    task of the event loop and [_session_lock] whether the lock is held. *)
Record SessionAdapter : Type := mkSession {
  _session_status : option json;
  _last_auth_check : option Q;
  _auth_check_interval : Q;
  _keep_alive_task : option nat;
  _keep_alive_interval : Q;
  _session_lock : bool
}.

(** The adapter together with the event loop's tasks (indexed by handle) and
    the trace of what was done to the outside world. *)
Record state : Type := mkState {
  self : SessionAdapter;
  tasks : list task_state;
  events : trace
}.

Definition with_self (f : SessionAdapter -> SessionAdapter) (st : state) : state :=
  mkState (f (self st)) (tasks st) (events st).

Definition set_session_status (v : option json) : state -> state :=
  with_self (fun a => mkSession v (_last_auth_check a) (_auth_check_interval a)
                                (_keep_alive_task a) (_keep_alive_interval a)
                                (_session_lock a)).

Definition set_last_auth_check (v : option Q) : state -> state :=
  with_self (fun a => mkSession (_session_status a) v (_auth_check_interval a)
                                (_keep_alive_task a) (_keep_alive_interval a)
                                (_session_lock a)).

Definition set_keep_alive_task (v : option nat) : state -> state :=
  with_self (fun a => mkSession (_session_status a) (_last_auth_check a)
                                (_auth_check_interval a) v (_keep_alive_interval a)
                                (_session_lock a)).

Definition set_session_lock (v : bool) : state -> state :=
  with_self (fun a => mkSession (_session_status a) (_last_auth_check a)
                                (_auth_check_interval a) (_keep_alive_task a)
                                (_keep_alive_interval a) v).

Definition set_events (t : trace) (st : state) : state :=
  mkState (self st) (tasks st) t.

Definition set_tasks (ts : list task_state) (st : state) : state :=
  mkState (self st) ts (events st).

Fixpoint replace_nth {A} (i : nat) (x : A) (l : list A) : list A :=
  match l, i with
  | [], _ => []
  | _ :: l', O => x :: l'
  | y :: l', S i' => y :: replace_nth i' x l'
  end.

Module Session.

Definition auth_status_path : string := "/iserver/auth/status".
Definition reauthenticate_path : string := "/iserver/reauthenticate".
Definition tickle_path : string := "/tickle".
Definition logout_path : string := "/logout".

Definition not_authenticated : exn :=
  IBAPIError "Session not authenticated. Please log in through the IB Gateway." None.

Definition reauthentication_failed : exn :=
  IBAPIError "Reauthentication failed. Manual login may be required." None.

(** [SessionAdapter.__init__], with an event loop that has no task yet and
    nothing done so far. *)
Definition __init__ : state :=
  mkState (mkSession None None 300 None 60 false) [] [].

(** [task.done()] *)
Definition done (tid : nat) (st : state) : bool :=
  match nth_error (tasks st) tid with
  | Some Running => false
  | _ => true
  end.

(** [asyncio.create_task(self._keep_alive_loop())]: the new task gets the
    next handle. *)
Definition create_task (st : state) : nat * state :=
  (List.length (tasks st), set_tasks (tasks st ++ [Running]) st).

(** [status.get("authenticated", False)], then its truth value; a payload
    that is not a [dict] has no [get]. *)
Definition get_authenticated (status : json) : result bool :=
  match status with
  | JObject items =>
      Ok (truthy (match assoc "authenticated" items with
                  | Some v => v
                  | None => JBool false
                  end))
  | _ => Err (AttributeError "object has no attribute 'get'")
  end.

(** [e.status_code == 401] *)
Definition status_code_is (c : Z) (code : option Z) : bool :=
  match code with
  | Some c' => c' =? c
  | None => false
  end.

(** Where a [CancelledError] finds the suspended keep-alive task: in its
    [asyncio.sleep], or in the ping that follows the sleep, when the
    transport call of the ping has added the first [progress] of the events
    it would add if it were left alone. *)
Inductive cancellation : Type :=
| DuringSleep
| DuringPing (progress : nat).

(** How one pass of the keep-alive loop goes: both its awaits complete, or
    [CancelledError] is thrown into one of them because [task.cancel()]
    was called. *)
Inductive resumption : Type := Resumed | Cancelled (point : cancellation).

Inductive loop_control : Type := NextIteration | Break.

(** What [client.request] does when the interpreter's stack has no room
    left for its frames: it raises [RecursionError], which the transport
    sees as any other exception of the request. *)
Definition out_of_stack : environment :=
  fun _ _ _ => Crashed "maximum recursion depth exceeded".

Definition _reauthenticate (env : environment) (st : state) : result unit * state :=
  match Http._post env reauthenticate_path (events st) with
  | (Ok _, t1) => (Ok tt, set_events t1 st)
  | (Err _, t1) => (Err reauthentication_failed, set_events t1 st)
  end.

Section WithEnvironment.
Variable env : environment.

(** Number of nested calls of [_check_auth_status] that the interpreter's
    recursion limit still leaves room for. *)
Variable depth : nat.

(** The body of [try:] in [_check_auth_status]. *)
Definition check_try_block (st : state) : result json * state :=
  match Http._post env auth_status_path (events st) with
  | (Err e, t1) => (Err e, set_events t1 st)
  | (Ok status, t1) =>
      let st1 := set_session_status (Some status) (set_events t1 st) in
      match get_authenticated status with
      | Err e => (Err e, st1)
      | Ok false => (Err not_authenticated, st1)
      | Ok true =>
          let st2 :=
            match _keep_alive_task (self st1) with
            | Some tid =>
                if done tid st1 then
                  let '(h, st') := create_task st1 in
                  set_keep_alive_task (Some h) st'
                else st1
            | None =>
                let '(h, st') := create_task st1 in
                set_keep_alive_task (Some h) st'
            end in
          (Ok status, st2)
      end
  end.

(** [_check_auth_status] with room for [d] nested calls of itself.  The
    [_post] of [_reauthenticate] runs one frame deeper than the [_post] of
    the status check that has just come back, and as deep as the [_post]
    of a nested status check would: when no nested call fits, it is this
    request that runs out of stack, inside the [try] of [_reauthenticate],
    whose [except Exception] turns the [RecursionError] into its own error
    (so that the nested call is not reached). *)
Fixpoint check_auth_status_rec (d : nat) (st : state) : result json * state :=
  match check_try_block st with
  | (Ok status, st1) => (Ok status, st1)
  | (Err (IBAPIError m code), st1) =>
      if status_code_is 401 code then
        match d with
        | O =>
            match _reauthenticate out_of_stack st1 with
            | (Err e, st2) => (Err e, st2)
            | (Ok _, st2) => (Err RecursionError, st2)
            end
        | S d' =>
            match _reauthenticate env st1 with
            | (Err e, st2) => (Err e, st2)
            | (Ok _, st2) => check_auth_status_rec d' st2
            end
        end
      else (Err (IBAPIError m code), st1)
  | (Err e, st1) => (Err e, st1)
  end.

Definition _check_auth_status (st : state) : result json * state :=
  check_auth_status_rec depth st.

(** [self._last_auth_check is None or
     current_time - self._last_auth_check > self._auth_check_interval],
    with the difference taken exactly. *)
Definition stale (current_time : Q) (st : state) : bool :=
  match _last_auth_check (self st) with
  | None => true
  | Some last =>
      negb (Qle_bool (current_time - last) (_auth_check_interval (self st)))
  end.

(** [_ensure_live], run without interruption; [current_time] is what
    [time.time()] returns once the lock is held. *)
Definition _ensure_live (current_time : Q) (st : state) : result unit * state :=
  let st0 := set_session_lock true st in
  if stale current_time st0 then
    match _check_auth_status st0 with
    | (Ok _, st1) =>
        (Ok tt, set_session_lock false
                  (set_last_auth_check (Some current_time) st1))
    | (Err e, st1) => (Err e, set_session_lock false st1)
    end
  else (Ok tt, set_session_lock false st0).

Definition _tickle (st : state) : result unit * state :=
  match Http._post env tickle_path (events st) with
  | (Ok _, t1) => (Ok tt, set_events t1 st)
  | (Err _, t1) => (Ok tt, set_events t1 st)
  end.

(** [await self._tickle()] with a [CancelledError] thrown into it: no
    [except Exception] on the way catches it, neither in the transport nor
    in [_tickle], so it reaches the loop.  The trace keeps what the
    transport call had added by then; a request still in flight has no
    outcome and leaves no event. *)
Definition cancelled_tickle (progress : nat) (st : state) : state :=
  set_events (firstn (List.length (events st) + progress)
                     (snd (Http._post env tickle_path (events st)))) st.

(** One iteration of [while True:] in [_keep_alive_loop]: the [try] block
    with its two awaits, and the [except] clauses. *)
Definition keep_alive_iteration (r : resumption) (st : state)
  : loop_control * state :=
  match r with
  | Cancelled DuringSleep => (Break, st)
  | Cancelled (DuringPing progress) =>
      let st1 := set_events (events st ++ [Sleep (_keep_alive_interval (self st))]) st in
      (Break, cancelled_tickle progress st1)
  | Resumed =>
      let st1 := set_events (events st ++ [Sleep (_keep_alive_interval (self st))]) st in
      match _tickle st1 with
      | (Ok _, st2) => (NextIteration, st2)
      | (Err _, st2) => (NextIteration, st2)
      end
  end.

(** [_keep_alive_loop], given how its successive passes go: the
    coroutine has finished, or it is suspended in a further sleep. *)
Fixpoint _keep_alive_loop (rs : list resumption) (st : state) : task_state * state :=
  match rs with
  | [] => (Running, st)
  | r :: rs' =>
      match keep_alive_iteration r st with
      | (Break, st1) => (Done, st1)
      | (NextIteration, st1) => _keep_alive_loop rs' st1
      end
  end.

(** The event loop gives task [tid] its turn after the sleep and the ping
    that follows runs to its end; a finished task never runs again. *)
Definition wake (tid : nat) (st : state) : state :=
  if done tid st then st
  else match keep_alive_iteration Resumed st with
       | (NextIteration, st1) => st1
       | (Break, st1) => set_tasks (replace_nth tid Done (tasks st1)) st1
       end.

(** [task.cancel()] followed by [await task]: the task, which [point]
    says is in its sleep or in a ping, is resumed with [CancelledError],
    and [logout] goes on once it has finished. *)
Definition cancel_and_await (tid : nat) (point : cancellation) (st : state)
  : option state :=
  match keep_alive_iteration (Cancelled point) st with
  | (Break, st1) => Some (set_tasks (replace_nth tid Done (tasks st1)) st1)
  | (NextIteration, _) => None
  end.

(** [logout] up to the point where it is suspended in
    [await _post("/logout")]; [None] would mean that
    [await self._keep_alive_task] never comes back. *)
Definition logout_cancel (point : cancellation) (st : state) : option state :=
  match _keep_alive_task (self st) with
  | Some tid => if done tid st then Some st else cancel_and_await tid point st
  | None => Some st
  end.

(** The rest of [logout], from the moment its [_post] comes back, which
    is when the events of that call are recorded.  [logout] holds no lock:
    whatever ran in between has run on the same attributes. *)
Definition logout_finish (st : state) : state :=
  let st2 :=
    match Http._post env logout_path (events st) with
    | (_, t1) => set_events t1 st
    end in
  set_last_auth_check None (set_session_status None st2).

(** [logout] with nothing else running while it is suspended. *)
Definition logout (point : cancellation) (st : state) : option state :=
  match logout_cancel point st with
  | None => None
  | Some st1 => Some (logout_finish st1)
  end.

Definition get_session_info (current_time : Q) (st : state) : result json * state :=
  match _ensure_live current_time st with
  | (Err e, st1) => (Err e, st1)
  | (Ok _, st1) =>
      (Ok (match _session_status (self st1) with
           | Some v => if truthy v then v else JObject []
           | None => JObject []
           end), st1)
  end.

End WithEnvironment.

End Session.

(** ** Reading a trace *)

Module Trace.

Definition is_attempt (e : event) : bool :=
  match e with Attempt _ _ _ _ => true | Sleep _ => false end.

(** Number of HTTP requests sent. *)
Definition attempts (t : trace) : nat := List.length (filter is_attempt t).

Definition is_attempt_to (path : string) (e : event) : bool :=
  match e with
  | Attempt _ p _ _ => String.eqb p path
  | Sleep _ => false
  end.

(** Number of HTTP requests sent to [path]. *)
Definition attempts_to (path : string) (t : trace) : nat :=
  List.length (filter (is_attempt_to path) t).

(** A call of [_request_with_retry] for [path] starts with the request
    numbered [attempt = 0]. *)
Definition is_call_to (path : string) (e : event) : bool :=
  match e with
  | Attempt _ p k _ => String.eqb p path && (k =? 0)
  | Sleep _ => false
  end.

Definition calls_to (path : string) (t : trace) : nat :=
  List.length (filter (is_call_to path) t).

(** A request to [path] answered with status [code]. *)
Definition is_answer (path : string) (code : Z) (e : event) : bool :=
  match e with
  | Attempt _ p _ (Responded r) => String.eqb p path && (status_code r =? code)
  | _ => false
  end.

Definition answers (path : string) (code : Z) (t : trace) : nat :=
  List.length (filter (is_answer path code) t).

(** The arguments of the [asyncio.sleep] calls, in order. *)
Fixpoint sleeps (t : trace) : list Q :=
  match t with
  | [] => []
  | Sleep d :: t' => d :: sleeps t'
  | Attempt _ _ _ _ :: t' => sleeps t'
  end.

(** The values of the loop variable [attempt] at the requests, in order. *)
Fixpoint attempt_numbers (t : trace) : list Z :=
  match t with
  | [] => []
  | Attempt _ _ k _ :: t' => k :: attempt_numbers t'
  | Sleep _ :: t' => attempt_numbers t'
  end.


Definition total (ds : list Q) : Q := fold_right Qplus 0%Q ds.

End Trace.

(** ** One operation after the other *)

(** What is done to one adapter, step by step, with the event loop giving
    the keep-alive tasks their turns in between.  [EnsureLive], [Logout]
    and [Wake] run from call to return.  A [logout] takes no lock and is
    suspended in [await _post("/logout")]: one that something else runs
    into is given by its two halves, [BeginLogout] and [EndLogout], with
    what runs meanwhile between them.  An [_ensure_live] is suspended only
    while it holds the lock and writes the attributes only when its check
    has come back, so its overlaps with a [logout] have the effect of one
    of these sequences; its overlaps with other [_ensure_live] calls are
    the subject of [Concurrent]. *)
Module Sequential.

Inductive action : Type :=
| EnsureLive (current_time : Q)
| Logout (point : Session.cancellation)       (* a [logout] with nothing in between *)
| Wake (tid : nat)
| BeginLogout (point : Session.cancellation)  (* [logout] up to its [await _post] *)
| EndLogout.                                  (* the rest of that [logout] *)

Section WithEnvironment.
Variable env : environment.
Variable depth : nat.

Definition perform (a : action) (st : state) : option state :=
  match a with
  | EnsureLive ct => Some (snd (Session._ensure_live env depth ct st))
  | Logout point => Session.logout env point st
  | Wake tid => Some (Session.wake env tid st)
  | BeginLogout point => Session.logout_cancel env point st
  | EndLogout => Some (Session.logout_finish env st)
  end.

(** [a] is an [_ensure_live] that ran the auth-status check and came back
    without raising. *)
Definition successful_check (a : action) (st : state) : bool :=
  match a with
  | EnsureLive ct =>
      Session.stale ct st && is_ok (fst (Session._ensure_live env depth ct st))
  | _ => false
  end.

(** The session has completed a successful auth check and has not been
    logged out since: [live] before [a], the result after it.  A [logout]
    is over when it returns. *)
Definition live_after (a : action) (st : state) (live : bool) : bool :=
  match a with
  | Logout _ => false
  | EndLogout => false
  | _ => successful_check a st || live
  end.

Fixpoint run (acts : list action) (st : state) (live : bool)
  : option (state * bool) :=
  match acts with
  | [] => Some (st, live)
  | a :: rest =>
      match perform a st with
      | Some st' => run rest st' (live_after a st live)
      | None => None
      end
  end.

End WithEnvironment.

(** The task behind the adapter's handle is still running: the negation
    of the test [self._keep_alive_task is None or
    self._keep_alive_task.done()] of the source. *)
Definition keep_alive_running (st : state) : bool :=
  match _keep_alive_task (self st) with
  | Some tid => negb (Session.done tid st)
  | None => false
  end.

Definition is_running (s : task_state) : bool :=
  match s with Running => true | Done => false end.

(** Number of keep-alive tasks of the event loop that have not finished. *)
Definition running_tasks (st : state) : nat :=
  List.length (filter is_running (tasks st)).

Definition all_done (ts : list task_state) : bool :=
  forallb (fun s => negb (is_running s)) ts.

(** How the tasks of the event loop relate to [live]: a live session has
    exactly one running task, the newest one, and the adapter holds its
    handle; otherwise every task has finished. *)
Definition consistent (st : state) (live : bool) : Prop :=
  if live then
    exists ds, tasks st = ds ++ [Running]
               /\ all_done ds = true
               /\ _keep_alive_task (self st) = Some (List.length ds)
  else all_done (tasks st) = true.

(** [a] is not a call of [_ensure_live]. *)
Definition no_check (a : action) : bool :=
  match a with EnsureLive _ => false | _ => true end.

Definition is_cancelled (r : Session.resumption) : bool :=
  match r with Session.Cancelled _ => true | Session.Resumed => false end.

(** [a] is an operation that runs from its call to its return with nothing
    else in between. *)
Definition whole (a : action) : bool :=
  match a with
  | BeginLogout _ => false
  | EndLogout => false
  | _ => true
  end.

End Sequential.

(** ** Concurrent callers of [_ensure_live] *)

(** Coroutines that all call [_ensure_live] on one adapter.  A coroutine
    gives up control only at an [await]: when it waits for the lock, and
    while [_check_auth_status] is in flight with the lock held.  The
    scheduler picks which coroutine moves next. *)
Module Concurrent.

Inductive caller : Type :=
| Queued                          (* before [async with self._session_lock] *)
| Checking (current_time : Q)     (* holds the lock, awaits the check *)
| Returned (r : result unit).

Record system : Type := mkSystem {
  shared : state;
  callers : list caller
}.

Inductive move : Type :=
| Acquire (i : nat) (current_time : Q)  (* caller [i] gets the lock and reads the clock *)
| Finish (i : nat).                     (* the check of caller [i] completes *)

Section WithEnvironment.
Variable env : environment.
Variable depth : nat.

(** [None]: the move is not possible (a caller cannot take a lock that is
    held, nor finish a check it has not started). *)
Definition step (m : move) (sys : system) : option system :=
  match m with
  | Acquire i ct =>
      match nth_error (callers sys) i with
      | Some Queued =>
          if _session_lock (self (shared sys)) then None
          else
            let st0 := set_session_lock true (shared sys) in
            if Session.stale ct st0 then
              Some (mkSystem st0 (replace_nth i (Checking ct) (callers sys)))
            else
              Some (mkSystem (set_session_lock false st0)
                             (replace_nth i (Returned (Ok tt)) (callers sys)))
      | _ => None
      end
  | Finish i =>
      match nth_error (callers sys) i with
      | Some (Checking ct) =>
          match Session._check_auth_status env depth (shared sys) with
          | (Ok _, st1) =>
              Some (mkSystem
                      (set_session_lock false (set_last_auth_check (Some ct) st1))
                      (replace_nth i (Returned (Ok tt)) (callers sys)))
          | (Err e, st1) =>
              Some (mkSystem (set_session_lock false st1)
                             (replace_nth i (Returned (Err e)) (callers sys)))
          end
      | _ => None
      end
  end.

Fixpoint run (schedule : list move) (sys : system) : option system :=
  match schedule with
  | [] => Some sys
  | m :: rest =>
      match step m sys with
      | Some sys' => run rest sys'
      | None => None
      end
  end.

End WithEnvironment.

(** [n] callers arrive at a fresh adapter before any check has started. *)
Definition start (n : nat) : system :=
  mkSystem Session.__init__ (repeat Queued n).

Definition has_returned (c : caller) : bool :=
  match c with Returned _ => true | _ => false end.

Definition returned_ok (c : caller) : bool :=
  match c with Returned (Ok _) => true | _ => false end.

(** The clock readings of a schedule, in order. *)
Fixpoint readings (schedule : list move) : list Q :=
  match schedule with
  | [] => []
  | Acquire _ ct :: rest => ct :: readings rest
  | Finish _ :: rest => readings rest
  end.

(** No two readings are further apart than [interval]. *)
Definition within (interval : Q) (cts : list Q) : bool :=
  forallb (fun a => forallb (fun b => Qle_bool (b - a) interval) cts) cts.

(** Where [n] callers that started together can be, when the clock
    readings are among [cts]: nobody has the lock yet; one caller holds it
    and its check is in flight; or the check is over, the cache carries its
    reading, one request has been sent, and every caller is still waiting
    or has returned normally. *)
Inductive phase (n : nat) (cts : list Q) (sys : system) : Prop :=
| Idle :
    sys = start n -> phase n cts sys
| InFlight (i : nat) (ct : Q) :
    shared sys = set_session_lock true Session.__init__ ->
    nth_error (callers sys) i = Some (Checking ct) ->
    In ct cts ->
    (forall j c, nth_error (callers sys) j = Some c -> j <> i -> c = Queued) ->
    phase n cts sys
| Fresh (ct : Q) (out : raw_outcome) :
    In ct cts ->
    events (shared sys) = [Attempt "POST" Session.auth_status_path 0 out] ->
    _last_auth_check (self (shared sys)) = Some ct ->
    _auth_check_interval (self (shared sys)) = 300%Q ->
    _session_lock (self (shared sys)) = false ->
    (forall j c, nth_error (callers sys) j = Some c ->
                 c = Queued \/ c = Returned (Ok tt)) ->
    phase n cts sys.

End Concurrent.

(** ** Classifying events and errors *)

Module Classify.

(** Events of a call of [_request_with_retry method path]. *)
Definition own (method path : string) (e : event) : Prop :=
  match e with
  | Attempt m p _ _ => m = method /\ p = path
  | Sleep _ => True
  end.

(** The error the transport raises for a 401 or a 403. *)
Definition auth_error (code : Z) : exn :=
  if code =? 401 then IBAPIError "Authentication required" (Some 401)
  else IBAPIError "Access forbidden" (Some 403).

(** [e] is an [IBAPIError] whose [status_code] is 401. *)
Definition is_auth_required (e : exn) : bool :=
  match e with
  | IBAPIError _ code => Session.status_code_is 401 code
  | _ => false
  end.

Definition raised_auth_required {A} (r : result A) : bool :=
  match r with
  | Err e => is_auth_required e
  | Ok _ => false
  end.

(** What the transport returns for a 2xx response: the empty map for an
    empty body, else the parsed JSON value. *)
Definition payload_of (r : Response) : option json :=
  if PyStr.is_empty (content r) then Some (JObject [])
  else match json_body r with
       | inr v => Some v
       | inl _ => None
       end.

(** [e] is an error that arises in session.py itself and never in the
    transport. *)
Definition is_session_error (e : exn) : bool :=
  match e with
  | IBAPIError m None =>
      String.eqb m (str_of_exn Session.not_authenticated)
      || String.eqb m (str_of_exn Session.reauthentication_failed)
  | AttributeError _ => true
  | RecursionError => true
  | _ => false
  end.

(** The call ended right after a request to the re-authentication
    endpoint: [_reauthenticate] raised its error, because that request
    failed or because it ran out of stack. *)
Definition stopped_after_reauth {A} (r : result A) : bool :=
  match r with
  | Err (IBAPIError m None) =>
      String.eqb m (str_of_exn Session.reauthentication_failed)
  | _ => false
  end.

(** The gateway's answer is a 2xx response whose payload reports an
    authenticated session. *)
Definition reports_authenticated (out : raw_outcome) : bool :=
  match out with
  | Responded r =>
      Http.is_success r
      && match payload_of r with
         | Some v =>
             match Session.get_authenticated v with
             | Ok b => b
             | Err _ => false
             end
         | None => false
         end
  | _ => false
  end.

Definition answered_401 (out : raw_outcome) : bool :=
  match out with
  | Responded r => status_code r =? 401
  | _ => false
  end.

End Classify.

(** ** Gateways used in the examples *)

Module Scenario.

Definition quote : string := String (ascii_of_nat 34) EmptyString.

(** The JSON text of an object with the single member [key]. *)
Definition member_text (key value : string) : string :=
  ("{" ++ quote ++ key ++ quote ++ ":" ++ value ++ "}")%string.

Definition bool_text (b : bool) : string := if b then "true" else "false".

(** A 200 response whose body is the object with the member [key: b]. *)
Definition ok_with (key : string) (b : bool) : raw_outcome :=
  Responded (mkResponse 200 (member_text key (bool_text b))
                        (inr (JObject [(key, JBool b)])) "").

(** A 200 response with an empty body. *)
Definition ok_empty : raw_outcome :=
  Responded (mkResponse 200 "" (inl "Expecting value: line 1 column 1 (char 0)") "").

(** A response with an error status and no body. *)
Definition failed (code : Z) (text : string) : raw_outcome :=
  Responded (mkResponse code "" (inl "Expecting value: line 1 column 1 (char 0)") text).

(** A gateway whose answer depends on the path and on how many requests
    that path has received before. *)
Definition scripted (script : string -> nat -> raw_outcome) : environment :=
  fun history _ path => script path (Trace.attempts_to path history).

(** Always the same answer. *)
Definition always (out : raw_outcome) : environment := fun _ _ _ => out.

(** 500, 500, then 200 with the body [{"ok":true}]. *)
Definition two_failures_then_ok : environment :=
  scripted (fun _ n => if Nat.ltb n 2 then failed 500 "Server error '500 Internal Server Error'"
                       else ok_with "ok" true).

(** The auth-status endpoint answers 401 to its first [n] requests and
    reports an authenticated session afterwards; every other endpoint
    answers 200 with an empty body. *)
Definition unauthorized_first (n : nat) : environment :=
  scripted (fun path k =>
              if String.eqb path Session.auth_status_path then
                if Nat.ltb k n then failed 401 "Client error '401 Unauthorized'"
                else ok_with "authenticated" true
              else ok_empty).

(** The auth-status endpoint always answers 401, every other endpoint 200
    with an empty body. *)
Definition always_unauthorized : environment :=
  scripted (fun path _ =>
              if String.eqb path Session.auth_status_path then
                failed 401 "Client error '401 Unauthorized'"
              else ok_empty).

(** Every endpoint reports an authenticated session. *)
Definition authenticated : environment := always (ok_with "authenticated" true).

(** Every endpoint answers 200 and reports that the session is not
    authenticated. *)
Definition not_logged_in : environment := always (ok_with "authenticated" false).

(** First request to the auth-status endpoint: 401; later ones: an
    authenticated session.  The re-authentication endpoint answers 200 with
    a payload saying the session is not authenticated. *)
Definition reauth_reports_unauthenticated : environment :=
  scripted (fun path k =>
              if String.eqb path Session.auth_status_path then
                if Nat.ltb k 1 then failed 401 "Client error '401 Unauthorized'"
                else ok_with "authenticated" true
              else ok_with "authenticated" false).

End Scenario.

(** ** http.py: the other verbs *)

Module Verbs.

Section WithEnvironment.
Variable env : environment.

(** [_get(path)]: the query parameters travel in [kwargs] and are not part
    of what the model records. *)
Definition _get (path : string) (t : trace) : result json * trace :=
  Http._request_with_retry env "GET" path 3 1 t.

Definition _delete (path : string) (t : trace) : result json * trace :=
  Http._request_with_retry env "DELETE" path 3 1 t.

End WithEnvironment.

(** What the caller gets when a pass of the loop is the last one. *)
Definition outcome_of_pass (p : Http.pass) : option (result json) :=
  match p with
  | Http.Return v => Some (Ok v)
  | Http.Raise e => Some (Err e)
  | Http.Continue _ => None
  end.

(** [e] is the error of the [raise] that follows the loop. *)
Definition is_max_retries_error (e : exn) : bool :=
  match e with
  | IBAPIError m None => PyStr.starts_with "Max retries (" m
  | _ => false
  end.


(** Number of requests sent with [method]. *)
Definition attempts_by (method : string) (t : trace) : nat :=
  List.length (filter (fun e => match e with
                                | Attempt m _ _ _ => String.eqb m method
                                | Sleep _ => false
                                end) t).

End Verbs.

(** ** What is observed of a session *)

Module Watch.

(** The cached status is a map whose [authenticated] entry is truthy. *)
Definition cache_authenticated (st : state) : bool :=
  match _session_status (self st) with
  | Some v =>
      match Session.get_authenticated v with
      | Ok b => b
      | Err _ => false
      end
  | None => false
  end.

(** The gateway's answer is a 2xx response whose payload is a map that does
    not report an authenticated session. *)
Definition reports_unauthenticated (out : raw_outcome) : bool :=
  match out with
  | Responded r =>
      Http.is_success r
      && match Classify.payload_of r with
         | Some v =>
             match Session.get_authenticated v with
             | Ok b => negb b
             | Err _ => false
             end
         | None => false
         end
  | _ => false
  end.

(** Each reading is at least [now] and at least the one before it. *)
Fixpoint climbs (now : Q) (cts : list Q) : bool :=
  match cts with
  | [] => true
  | c :: rest => Qle_bool now c && climbs c rest
  end.

Definition nondecreasing (cts : list Q) : bool :=
  match cts with
  | [] => true
  | c :: rest => climbs c rest
  end.

(** The clock readings of the [_ensure_live] calls among [acts]. *)
Fixpoint readings_of (acts : list Sequential.action) : list Q :=
  match acts with
  | [] => []
  | Sequential.EnsureLive ct :: rest => ct :: readings_of rest
  | _ :: rest => readings_of rest
  end.

(** Number of pings that got as far as the outcome of their first
    request: one for each pass whose awaits complete before the first
    cancellation, and one more when that cancellation arrives during a
    ping that has made progress. *)
Fixpoint pings (rs : list Session.resumption) : nat :=
  match rs with
  | Session.Resumed :: rest => S (pings rest)
  | Session.Cancelled (Session.DuringPing (S _)) :: _ => 1
  | _ => O
  end.

Definition is_checking (c : Concurrent.caller) : bool :=
  match c with Concurrent.Checking _ => true | _ => false end.

(** Number of callers whose check is in flight. *)
Definition checking_count (cs : list Concurrent.caller) : nat :=
  List.length (filter is_checking cs).

(** Moves a caller still has to make before it has returned. *)
Definition moves_left (c : Concurrent.caller) : nat :=
  match c with
  | Concurrent.Queued => 2
  | Concurrent.Checking _ => 1
  | Concurrent.Returned _ => 0
  end.

Definition total_moves_left (cs : list Concurrent.caller) : nat :=
  fold_right (fun c n => (moves_left c + n)%nat) O cs.

(** The cache can be relied on at a clock reading of [now] or later: it
    reports an authenticated session, or it is stale already. *)
Definition trusted (now : Q) (st : state) : Prop :=
  cache_authenticated st = true \/ Session.stale now st = true.

(** The lock is held exactly while one check is in flight. *)
Definition exclusive (sys : Concurrent.system) : Prop :=
  checking_count (Concurrent.callers sys)
  = if _session_lock (self (Concurrent.shared sys)) then 1%nat else 0%nat.

End Watch.

(** ** The adapters built on the session *)

Module Adapters.
Import Session.

(** *** Paths *)

(** [f"/portfolio/{account}/summary"] *)
Definition summary_path (account : string) : string :=
  ("/portfolio/" ++ account ++ "/summary")%string.

(** [f"/portfolio/{account}/ledger"] *)
Definition ledger_path (account : string) : string :=
  ("/portfolio/" ++ account ++ "/ledger")%string.

Definition partitioned_pnl_path : string := "/iserver/account/pnl/partitioned".

(** [f"/portfolio/{account}/positions/{page}"] *)
Definition positions_path (account : string) (page : Z) : string :=
  ("/portfolio/" ++ account ++ "/positions/" ++ PyStr.str_of_int page)%string.

(** [f"/iserver/account/{account}/order/{order_id}"] *)
Definition order_path (account order_id : string) : string :=
  ("/iserver/account/" ++ account ++ "/order/" ++ order_id)%string.

(** [f"/iserver/account/order/status/{order_id}"] *)
Definition order_status_path (order_id : string) : string :=
  ("/iserver/account/order/status/" ++ order_id)%string.

Definition scanner_params_path : string := "/iserver/scanner/params".

(** *** Python values *)

(** [v is None] *)
Definition is_none (v : json) : bool :=
  match v with JNull => true | _ => false end.

(** The [TypeError] of a [for] over a value that cannot be iterated. *)
Definition not_iterable : exn := OtherException "object is not iterable".

(** [ScannerAdapter]: the session attributes and [_cached_params], where
    [JNull] is Python's [None]. *)
Record ScannerAdapter : Type := mkScanner {
  session : state;
  _cached_params : json
}.

(** [ScannerAdapter.__init__] *)
Definition scanner_init : ScannerAdapter := mkScanner __init__ JNull.

(** [x["code"]] appended when [x] is a dict with that key. *)
Definition member_of (key : string) (x : json) : list json :=
  match x with
  | JObject fields =>
      match assoc key fields with
      | Some c => [c]
      | None => []
      end
  | _ => []
  end.

(** The loop of [get_available_scan_codes] over [params["scan_type_list"]]:
    a list gives its items; a dict gives its keys and a string its
    characters, none of which is a dict; anything else cannot be iterated. *)
Definition codes_in (l : json) : result (list json) :=
  match l with
  | JArray xs => Ok (flat_map (member_of "code") xs)
  | JObject _ => Ok []
  | JStr _ => Ok []
  | _ => Err not_iterable
  end.

(** What [get_available_scan_codes] does with the parameters. *)
Definition scan_codes_of (params : json) : result (list json) :=
  match params with
  | JObject items =>
      match assoc "scan_type_list" items with
      | Some l => codes_in l
      | None => Ok []
      end
  | _ => Ok []
  end.

(** The inner loop of [get_available_locations] over
    [location_group["locations"]]. *)
Definition types_in (l : json) : result (list json) :=
  match l with
  | JArray xs => Ok (flat_map (member_of "type") xs)
  | JObject _ => Ok []
  | JStr _ => Ok []
  | _ => Err not_iterable
  end.

(** The outer loop body, for one [location_group]. *)
Definition locations_of_group (g : json) : result (list json) :=
  match g with
  | JObject fields =>
      match assoc "locations" fields with
      | Some l => types_in l
      | None => Ok []
      end
  | _ => Ok []
  end.

(** The outer loop over the items of a list, accumulating into
    [locations] until a group raises. *)
Fixpoint locations_of_groups (gs : list json) (locations : list json)
  : result (list json) :=
  match gs with
  | [] => Ok locations
  | g :: rest =>
      match locations_of_group g with
      | Ok found => locations_of_groups rest (locations ++ found)
      | Err e => Err e
      end
  end.

(** What [get_available_locations] does with the parameters. *)
Definition locations_of (params : json) : result (list json) :=
  match params with
  | JObject items =>
      match assoc "location_tree" items with
      | Some (JArray gs) => locations_of_groups gs []
      | Some (JObject _) => Ok []
      | Some (JStr _) => Ok []
      | Some _ => Err not_iterable
      | None => Ok []
      end
  | _ => Ok []
  end.

Section WithEnvironment.
Variable env : environment.
Variable depth : nat.

(** *** accounts.py *)

(** [AccountsAdapter.get_account_summary]; [current_time] is the clock
    reading of its [_ensure_live]. *)
Definition get_account_summary (account_id : string) (current_time : Q) (st : state)
  : result json * state :=
  match _ensure_live env depth current_time st with
  | (Err e, st1) => (Err e, st1)
  | (Ok _, st1) =>
      match Verbs._get env (summary_path account_id) (events st1) with
      | (Ok data, t1) => (Ok data, set_events t1 st1)
      | (Err e, t1) => (Err e, set_events t1 st1)
      end
  end.

(** *** orders.py *)

(** [OrderAdapter.cancel_order] *)
Definition cancel_order (account order_id : string) (current_time : Q) (st : state)
  : result json * state :=
  match _ensure_live env depth current_time st with
  | (Err e, st1) => (Err e, st1)
  | (Ok _, st1) =>
      match Verbs._delete env (order_path account order_id) (events st1) with
      | (Ok data, t1) => (Ok data, set_events t1 st1)
      | (Err e, t1) => (Err e, set_events t1 st1)
      end
  end.

(** [OrderAdapter.get_order_status] *)
Definition get_order_status (order_id : string) (current_time : Q) (st : state)
  : result json * state :=
  match _ensure_live env depth current_time st with
  | (Err e, st1) => (Err e, st1)
  | (Ok _, st1) =>
      match Verbs._get env (order_status_path order_id) (events st1) with
      | (Ok data, t1) => (Ok data, set_events t1 st1)
      | (Err e, t1) => (Err e, set_events t1 st1)
      end
  end.

(** *** pnl.py *)

Definition endpoints_to_try (account : string) : list string :=
  [summary_path account; ledger_path account; partitioned_pnl_path].

(** The [for endpoint in endpoints_to_try] loop of
    [get_account_pnl_summary] and the [return {}] that follows it. *)
Fixpoint try_endpoints (endpoints : list string) (st : state) : json * state :=
  match endpoints with
  | [] => (JObject [], st)
  | endpoint :: rest =>
      match Verbs._get env endpoint (events st) with
      | (Ok data, t1) =>
          if truthy data then (data, set_events t1 st)
          else try_endpoints rest (set_events t1 st)
      | (Err _, t1) => try_endpoints rest (set_events t1 st)
      end
  end.

(** [PnLAdapter.get_account_pnl_summary] *)
Definition get_account_pnl_summary (account : string) (current_time : Q) (st : state)
  : result json * state :=
  match _ensure_live env depth current_time st with
  | (Err e, st1) => (Err e, st1)
  | (Ok _, st1) =>
      match try_endpoints (endpoints_to_try account) st1 with
      | (data, st2) => (Ok data, st2)
      end
  end.

(** *** scanner.py *)

(** [ScannerAdapter.get_scanner_params] *)
Definition get_scanner_params (current_time : Q) (sc : ScannerAdapter)
  : result json * ScannerAdapter :=
  match _ensure_live env depth current_time (session sc) with
  | (Err e, st1) => (Err e, mkScanner st1 (_cached_params sc))
  | (Ok _, st1) =>
      if is_none (_cached_params sc) then
        match Verbs._get env scanner_params_path (events st1) with
        | (Ok data, t1) => (Ok data, mkScanner (set_events t1 st1) data)
        | (Err e, t1) => (Err e, mkScanner (set_events t1 st1) (_cached_params sc))
        end
      else (Ok (_cached_params sc), mkScanner st1 (_cached_params sc))
  end.

(** [ScannerAdapter.get_available_scan_codes] *)
Definition get_available_scan_codes (current_time : Q) (sc : ScannerAdapter)
  : result (list json) * ScannerAdapter :=
  match get_scanner_params current_time sc with
  | (Err e, sc1) => (Err e, sc1)
  | (Ok params, sc1) => (scan_codes_of params, sc1)
  end.

(** [ScannerAdapter.get_available_locations] *)
Definition get_available_locations (current_time : Q) (sc : ScannerAdapter)
  : result (list json) * ScannerAdapter :=
  match get_scanner_params current_time sc with
  | (Err e, sc1) => (Err e, sc1)
  | (Ok params, sc1) => (locations_of params, sc1)
  end.

(** The [logout] the scanner inherits: it does not touch [_cached_params]. *)
Definition scanner_logout (point : cancellation) (sc : ScannerAdapter)
  : option ScannerAdapter :=
  match logout env point (session sc) with
  | Some st1 => Some (mkScanner st1 (_cached_params sc))
  | None => None
  end.

(** *** positions.py *)

Section Portfolio.

(** The pydantic model [Position] and the validation of a dict that the
    source calls it on with keyword unpacking; [None] stands for the
    exception that raises. *)
Variable Position : Type.
Variable validate : list (string * json) -> option Position.

(** One pass of [for pos_data in data]: an item that is not a dict cannot
    be unpacked into keywords, and whatever the pass raises is logged and
    skipped. *)
Definition parse_position (pos_data : json) : list Position :=
  match pos_data with
  | JObject fields =>
      match validate fields with
      | Some position => [position]
      | None => []
      end
  | _ => []
  end.

(** The loop over [data]: the keys of a dict and the characters of a
    string are strings, so each of them is skipped. *)
Definition parse_positions (data : json) : result (list Position) :=
  match data with
  | JArray items => Ok (flat_map parse_position items)
  | JObject _ => Ok []
  | JStr _ => Ok []
  | _ => Err not_iterable
  end.

(** [PortfolioAdapter.positions] *)
Definition positions (account : string) (page : Z) (current_time : Q) (st : state)
  : result (list Position) * state :=
  match _ensure_live env depth current_time st with
  | (Err e, st1) => (Err e, st1)
  | (Ok _, st1) =>
      match Verbs._get env (positions_path account page) (events st1) with
      | (Ok data, t1) => (parse_positions data, set_events t1 st1)
      | (Err e, t1) => (Err e, set_events t1 st1)
      end
  end.

(** The [while True] loop of [all_positions]; [clock page] is the clock
    reading of the [_ensure_live] of that page, and [remaining] bounds the
    number of passes ([None] when it is used up). *)
Fixpoint all_positions_loop (remaining : nat) (account : string) (clock : Z -> Q)
         (page : Z) (all_positions : list Position) (st : state)
  : option (list Position * state) :=
  match remaining with
  | O => None
  | S remaining' =>
      match positions account page (clock page) st with
      | (Err _, st1) => Some (all_positions, st1)
      | (Ok [], st1) => Some (all_positions, st1)
      | (Ok (p :: ps), st1) =>
          let all_positions' := all_positions ++ p :: ps in
          let page' := page + 1 in
          if page' >? 100 then Some (all_positions', st1)
          else all_positions_loop remaining' account clock page' all_positions' st1
      end
  end.

(** [PortfolioAdapter.all_positions] *)
Definition all_positions (remaining : nat) (account : string) (clock : Z -> Q)
           (st : state) : option (list Position * state) :=
  all_positions_loop remaining account clock 0 [] st.

End Portfolio.

End WithEnvironment.

(** *** One scanner, one call after another *)

Inductive scanner_call : Type :=
| GetParams (current_time : Q)
| GetScanCodes (current_time : Q)
| GetLocations (current_time : Q)
| ScannerLogout (point : cancellation).

Definition scanner_perform (env : environment) (depth : nat)
           (c : scanner_call) (sc : ScannerAdapter) : option ScannerAdapter :=
  match c with
  | GetParams ct => Some (snd (get_scanner_params env depth ct sc))
  | GetScanCodes ct => Some (snd (get_available_scan_codes env depth ct sc))
  | GetLocations ct => Some (snd (get_available_locations env depth ct sc))
  | ScannerLogout point => scanner_logout env point sc
  end.

Fixpoint scanner_run (env : environment) (depth : nat)
         (calls : list scanner_call) (sc : ScannerAdapter) : option ScannerAdapter :=
  match calls with
  | [] => Some sc
  | c :: rest =>
      match scanner_perform env depth c sc with
      | Some sc1 => scanner_run env depth rest sc1
      | None => None
      end
  end.

(** *** What is counted *)

Definition is_call_by (method : string) (e : event) : bool :=
  match e with
  | Attempt m _ k _ => String.eqb m method && (k =? 0)
  | Sleep _ => false
  end.

(** Number of calls of [_request_with_retry] made with [method]. *)
Definition calls_by (method : string) (t : trace) : nat :=
  List.length (filter (is_call_by method) t).

(** A sleep or a POST request. *)
Definition is_post (e : event) : bool :=
  match e with
  | Attempt m _ _ _ => String.eqb m "POST"
  | Sleep _ => true
  end.

(** [t'] is [t] followed by sleeps and POST requests only. *)
Definition posts_only (t t' : trace) : Prop :=
  exists delta, t' = t ++ delta /\ forallb is_post delta = true.

(** [t'] is [t] followed by one call of [_request_with_retry method path]:
    between one and four requests, the transport's defaults. *)
Definition one_call (method path : string) (t t' : trace) : Prop :=
  exists delta,
    t' = t ++ delta
    /\ Forall (Classify.own method path) delta
    /\ (1 <= Trace.attempts delta <= 4)%nat
    /\ calls_by method delta = 1%nat.

End Adapters.

(** ** __init__.py: the client *)

Module Client.

(** [IBClient]: the session attributes of its six adapters, which share the
    event loop and the gateway. *)
Record IBClient : Type := mkClient {
  accounts : SessionAdapter;
  portfolio : SessionAdapter;
  pnl : SessionAdapter;
  market_data : SessionAdapter;
  orders : SessionAdapter;
  scanner : SessionAdapter;
  loop_tasks : list task_state;
  log : trace
}.

(** [IBClient.__init__] *)
Definition client_init : IBClient :=
  let a := self Session.__init__ in mkClient a a a a a a [] [].

(** The adapters in the order of the list that [logout] builds. *)
Definition adapters (c : IBClient) : list SessionAdapter :=
  [accounts c; portfolio c; pnl c; market_data c; orders c; scanner c].

Section WithEnvironment.
Variable env : environment.

(** [await adapter.logout()] on the adapter with attributes [a], whose
    keep-alive task the cancellation finds at [point]. *)
Definition adapter_logout (point : Session.cancellation) (a : SessionAdapter)
           (ts : list task_state) (t : trace)
  : option (SessionAdapter * list task_state * trace) :=
  match Session.logout env point (mkState a ts t) with
  | Some st => Some (self st, tasks st, events st)
  | None => None
  end.

(** [IBClient.logout]: the six passes of [for adapter in adapters];
    [point i] is where the cancellation finds the task of adapter [i]. *)
Definition logout (point : nat -> Session.cancellation) (c : IBClient)
  : option IBClient :=
  match adapter_logout (point 0%nat) (accounts c) (loop_tasks c) (log c) with
  | None => None
  | Some (a1, ts1, t1) =>
  match adapter_logout (point 1%nat) (portfolio c) ts1 t1 with
  | None => None
  | Some (a2, ts2, t2) =>
  match adapter_logout (point 2%nat) (pnl c) ts2 t2 with
  | None => None
  | Some (a3, ts3, t3) =>
  match adapter_logout (point 3%nat) (market_data c) ts3 t3 with
  | None => None
  | Some (a4, ts4, t4) =>
  match adapter_logout (point 4%nat) (orders c) ts4 t4 with
  | None => None
  | Some (a5, ts5, t5) =>
  match adapter_logout (point 5%nat) (scanner c) ts5 t5 with
  | None => None
  | Some (a6, ts6, t6) => Some (mkClient a1 a2 a3 a4 a5 a6 ts6 t6)
  end end end end end end.

End WithEnvironment.

(** The task with handle [tid], if there is one, is not running. *)
Definition finished (ts : list task_state) (tid : nat) : Prop :=
  nth_error ts tid <> Some Running.

(** The adapter has been logged out: nothing cached, no time stamp, and no
    keep-alive task of its own running among [ts]. *)
Definition logged_out (ts : list task_state) (a : SessionAdapter) : Prop :=
  _session_status a = None
  /\ _last_auth_check a = None
  /\ Sequential.keep_alive_running (mkState a ts []) = false.

End Client.

(** * Properties *)

(** ** Traces *)

Module TraceFacts.
Import Trace.

Lemma attempts_app t u : attempts (t ++ u) = (attempts t + attempts u)%nat.
Proof. unfold attempts. now rewrite filter_app, length_app. Qed.

Lemma attempts_to_app p t u :
  attempts_to p (t ++ u) = (attempts_to p t + attempts_to p u)%nat.
Proof. unfold attempts_to. now rewrite filter_app, length_app. Qed.

Lemma calls_to_app p t u : calls_to p (t ++ u) = (calls_to p t + calls_to p u)%nat.
Proof. unfold calls_to. now rewrite filter_app, length_app. Qed.

Lemma answers_app p c t u :
  answers p c (t ++ u) = (answers p c t + answers p c u)%nat.
Proof. unfold answers. now rewrite filter_app, length_app. Qed.

Lemma sleeps_app t u : sleeps (t ++ u) = sleeps t ++ sleeps u.
Proof.
  induction t as [|[m p k o|d] t IH]; simpl; [reflexivity|assumption|].
  now rewrite IH.
Qed.

Lemma attempt_numbers_app t u :
  attempt_numbers (t ++ u) = attempt_numbers t ++ attempt_numbers u.
Proof.
  induction t as [|[m p k o|d] t IH]; simpl; [reflexivity| |assumption].
  now rewrite IH.
Qed.


Lemma answers_snoc p c t e :
  answers p c (t ++ [e]) = (answers p c t + (if is_answer p c e then 1 else 0))%nat.
Proof. rewrite answers_app. unfold answers at 2. cbn. now destruct (is_answer p c e). Qed.

Lemma calls_to_snoc p t e :
  calls_to p (t ++ [e]) = (calls_to p t + (if is_call_to p e then 1 else 0))%nat.
Proof. rewrite calls_to_app. unfold calls_to at 2. cbn. now destruct (is_call_to p e). Qed.

Lemma Forall_firstn {A} (P : A -> Prop) (n : nat) (l : list A) :
  Forall P l -> Forall P (firstn n l).
Proof.
  intros H. revert n. induction H as [|x l Hx _ IH]; intros [|n]; cbn; auto.
Qed.

Lemma calls_to_firstn p n t : (calls_to p (firstn n t) <= calls_to p t)%nat.
Proof.
  unfold calls_to. revert n. induction t as [|e t IH]; intros [|n]; cbn; try lia.
  specialize (IH n). destruct (is_call_to p e); cbn; lia.
Qed.

End TraceFacts.

(** ** The transport *)

Module HttpFacts.
Import Http Verbs Trace TraceFacts Classify.

Lemma sleep_and_continue_inv d k x :
  sleep_and_continue d k = Continue x ->
  x = backoff d k /\ k < float_overflow_attempt.
Proof.
  unfold sleep_and_continue.
  destruct (float_overflow_attempt <=? k) eqn:E; [discriminate|].
  intros [= <-]. split; [reflexivity|now apply Z.leb_gt].
Qed.




Lemma handlers_continue mr d k e x :
  handlers mr d k e = Continue x ->
  x = backoff d k /\ k < mr /\ k < float_overflow_attempt.
Proof.
  unfold handlers.
  destruct e; (destruct (k <? mr) eqn:E; cbn [andb]; [|discriminate]);
    try (destruct (PyStr.contains _ _); [|discriminate]);
    intros H; apply sleep_and_continue_inv in H; destruct H as [H1 H2];
    (split; [exact H1|split; [now apply Z.ltb_lt|exact H2]]).
Qed.

Lemma try_block_continue mr d k out x :
  try_block mr d k out = Continue x ->
  x = backoff d k /\ k < mr /\ k < float_overflow_attempt.
Proof.
  unfold try_block. destruct out as [r|m|m]; try discriminate.
  destruct (status_code r =? 401); [discriminate|].
  destruct (status_code r =? 403); [discriminate|].
  destruct (500 <=? status_code r); cbn [andb].
  - destruct (k <? mr) eqn:E; [|discriminate].
    intros H. apply sleep_and_continue_inv in H. destruct H as [H1 H2].
    split; [exact H1|split; [now apply Z.ltb_lt|exact H2]].
  - destruct (raise_for_status r); [discriminate|].
    destruct (PyStr.is_empty (content r)); [discriminate|].
    destruct (json_body r); discriminate.
Qed.

(** The loop body sleeps for [backoff retry_delay attempt] or not at all,
    and only while [attempt < max_retries] and the delay can be formed. *)
Lemma loop_body_continue_range mr d k out x :
  loop_body mr d k out = Continue x ->
  x = backoff d k /\ k < mr /\ k < float_overflow_attempt.
Proof.
  unfold loop_body. destruct (try_block mr d k out) as [v|e|y] eqn:E; try discriminate.
  - apply handlers_continue.
  - intros [= <-]. now apply try_block_continue in E.
Qed.

Lemma loop_body_continue mr d k out x :
  loop_body mr d k out = Continue x -> x = backoff d k /\ k < mr.
Proof.
  intros H. apply loop_body_continue_range in H. destruct H as (H1 & H2 & _). now split.
Qed.

Lemma numbers_shift (k : Z) (n : nat) :
  map (fun i => k + Z.of_nat i) (seq 0 (S n)) =
  k :: map (fun i => (k + 1) + Z.of_nat i) (seq 0 n).
Proof.
  cbn [seq map]. f_equal; [lia|].
  rewrite <- seq_shift, map_map. apply map_ext. intros i. lia.
Qed.

Lemma delays_shift (d : Q) (k : Z) (n : nat) :
  map (fun i => backoff d (k + Z.of_nat i)) (seq 0 (S n)) =
  backoff d k :: map (fun i => backoff d ((k + 1) + Z.of_nat i)) (seq 0 n).
Proof.
  cbn [seq map]. f_equal; [f_equal; lia|].
  rewrite <- seq_shift, map_map. apply map_ext. intros i. f_equal. lia.
Qed.

Section Loop.
Variable env : environment.
Variables (method path : string) (max_retries : Z) (retry_delay : Q).

(** What a run of the loop adds to the trace: requests numbered
    consecutively from [k], each but the last followed by its backoff
    sleep. *)
Lemma retry_loop_delta :
  forall remaining k t,
    (remaining = 0%nat \/ Z.of_nat remaining = max_retries + 1 - k) ->
    exists delta n,
      snd (retry_loop env method path max_retries retry_delay remaining k t) = t ++ delta
      /\ Forall (own method path) delta
      /\ (n <= remaining)%nat
      /\ (remaining <> 0%nat -> n <> 0%nat)
      /\ attempt_numbers delta = map (fun i => k + Z.of_nat i) (seq 0 n)
      /\ sleeps delta
         = map (fun i => backoff retry_delay (k + Z.of_nat i)) (seq 0 (n - 1)).
Proof.
  induction remaining as [|rem IH]; intros k t Hinv.
  - exists [], 0%nat. cbn. rewrite app_nil_r. repeat split; auto.
  - destruct Hinv as [Hinv|Hinv]; [discriminate|].
    cbn [retry_loop].
    destruct (loop_body max_retries retry_delay k (env t method path)) as [v|e|x] eqn:E.
    + exists [Attempt method path k (env t method path)], 1%nat. cbn.
      repeat split; auto; try lia.
      * repeat constructor.
      * f_equal; lia.
    + exists [Attempt method path k (env t method path)], 1%nat. cbn.
      repeat split; auto; try lia.
      * repeat constructor.
      * f_equal; lia.
    + apply loop_body_continue in E. destruct E as [-> Hk].
      destruct (IH (k + 1)
                   ((t ++ [Attempt method path k (env t method path)])
                      ++ [Sleep (backoff retry_delay k)]))
        as (delta & n & Hd & Hown & Hn & Hpos & Hnum & Hsl).
      { right. lia. }
      assert (Hrem : rem <> 0%nat) by lia.
      specialize (Hpos Hrem).
      exists (Attempt method path k (env t method path)
                :: Sleep (backoff retry_delay k) :: delta), (S n).
      rewrite Hd. rewrite <- !app_assoc. cbn [app].
      repeat split; auto; try lia.
      * repeat constructor; auto.
      * cbn [attempt_numbers]. rewrite Hnum. symmetry. apply numbers_shift.
      * cbn [sleeps]. rewrite Hsl.
        replace (S n - 1)%nat with (S (n - 1)) by lia.
        symmetry. apply delays_shift.
Qed.

End Loop.

Lemma attempts_numbers t : attempts t = List.length (attempt_numbers t).
Proof.
  unfold attempts. induction t as [|[m p k o|d] t IH]; simpl; auto.
Qed.

Lemma loop_body_401 mr d k r :
  status_code r = 401 ->
  loop_body mr d k (Responded r)
  = Raise (IBAPIError "Authentication required" (Some 401)).
Proof.
  intros H. unfold loop_body, try_block. rewrite H. cbn [Z.eqb Pos.eqb].
  unfold handlers.
  change (PyStr.contains "timeout" (PyStr.lower (str_of_exn
            (IBAPIError "Authentication required" (Some 401))))) with false.
  now rewrite andb_false_r.
Qed.

Lemma loop_body_403 mr d k r :
  status_code r = 403 ->
  loop_body mr d k (Responded r)
  = Raise (IBAPIError "Access forbidden" (Some 403)).
Proof.
  intros H. unfold loop_body, try_block. rewrite H. cbn [Z.eqb Pos.eqb].
  unfold handlers.
  change (PyStr.contains "timeout" (PyStr.lower (str_of_exn
            (IBAPIError "Access forbidden" (Some 403))))) with false.
  now rewrite andb_false_r.
Qed.


Lemma retry_loop_S env method path mr d rem k t :
  retry_loop env method path mr d (S rem) k t =
  match loop_body mr d k (env t method path) with
  | Return v => (Ok v, t ++ [Attempt method path k (env t method path)])
  | Raise e => (Err e, t ++ [Attempt method path k (env t method path)])
  | Continue x =>
      retry_loop env method path mr d rem (k + 1)
                 ((t ++ [Attempt method path k (env t method path)]) ++ [Sleep x])
  end.
Proof. reflexivity. Qed.

Section RunsTo.
Variable env : environment.
Variables (method path : string) (max_retries : Z) (retry_delay : Q).

(** The last pass there can be: numbered [max_retries], or 1024 when
    [max_retries] is larger, since no delay can be formed after it. *)
Variable last : Z.
Hypothesis last_pass : last = Z.min max_retries float_overflow_attempt.

Hypothesis retried_before :
  forall h k, 0 <= k < last ->
              exists x, loop_body max_retries retry_delay k (env h method path)
                        = Continue x.


End RunsTo.

Section AllServerErrors.
Variable env : environment.
Variables (method path : string) (max_retries : Z) (retry_delay : Q).
Hypothesis always_5xx :
  forall h, exists r, env h method path = Responded r /\ 500 <= status_code r.


End AllServerErrors.

Lemma backoff_power (d : Q) (k : nat) :
  (backoff d (Z.of_nat k) == d * inject_Z backoff_multiplier ^ Z.of_nat k)%Q.
Proof.
  unfold backoff, backoff_multiplier.
  apply Qmult_comp; [reflexivity|].
  apply Zpower_Qpower. lia.
Qed.

(** With a negative [max_retries] the loop body never runs: nothing is sent
    and the final [raise] of the function is reached. *)
Lemma negative_max_retries_sends_nothing env method path mr d t :
  mr < 0 ->
  _request_with_retry env method path mr d t
  = (Err (IBAPIError ("Max retries (" ++ PyStr.str_of_int mr ++ ") exceeded")%string None),
     t).
Proof.
  intros H. unfold _request_with_retry.
  replace (Z.to_nat (mr + 1)) with 0%nat by lia. reflexivity.
Qed.




(** C4: a response with status 401 (resp. 403) ends the call at once with
    the [IBAPIError] for 401 (resp. 403): in whichever pass of the loop it
    arrives, the trace gains that one request and nothing after it, no
    sleep and no further request, whatever [max_retries] and
    [retry_delay] are; so a call with a non-negative [max_retries] whose
    first response is a 401 or a 403 has sent exactly one request. *)
Theorem auth_failures_not_retried :
  forall (env : environment) (method path : string) (max_retries : Z)
         (retry_delay : Q) (t : trace) (r : Response),
    env t method path = Responded r ->
    status_code r = 401 \/ status_code r = 403 ->
    (forall remaining attempt,
        retry_loop env method path max_retries retry_delay (S remaining) attempt t
        = (Err (auth_error (status_code r)),
           t ++ [Attempt method path attempt (Responded r)]))
    /\ (0 <= max_retries ->
        let out := _request_with_retry env method path max_retries retry_delay t in
        fst out = Err (auth_error (status_code r))
        /\ snd out = t ++ [Attempt method path 0 (Responded r)]
        /\ attempts (snd out) = (attempts t + 1)%nat).
Proof.
  intros env method path mr d t r Hr Hcode.
  assert (Hloop : forall remaining attempt,
             retry_loop env method path mr d (S remaining) attempt t
             = (Err (auth_error (status_code r)),
                t ++ [Attempt method path attempt (Responded r)])).
  { intros rem k. rewrite retry_loop_S, Hr.
    destruct Hcode as [H|H].
    - rewrite (loop_body_401 _ _ _ _ H), H. reflexivity.
    - rewrite (loop_body_403 _ _ _ _ H), H. reflexivity. }
  split; [exact Hloop|].
  intros Hmr. cbn zeta. unfold _request_with_retry.
  destruct (Z.to_nat (mr + 1)) as [|rem] eqn:E; [lia|].
  rewrite Hloop. cbn [fst snd]. repeat split.
  rewrite attempts_app. reflexivity.
Qed.

Lemma auth_failures_not_retried_witness :
  let env := Scenario.always (Scenario.failed 401 "Client error '401 Unauthorized'") in
  let out := _request_with_retry env "POST" "/iserver/auth/status" 3 1 [] in
  fst out = Err (IBAPIError "Authentication required" (Some 401))
  /\ attempts (snd out) = 1%nat.
Proof.
  cbn zeta.
  destruct (auth_failures_not_retried
              (Scenario.always (Scenario.failed 401 "Client error '401 Unauthorized'"))
              "POST" "/iserver/auth/status" 3 1 []
              (mkResponse 401 "" (inl "Expecting value: line 1 column 1 (char 0)")
                          "Client error '401 Unauthorized'"))
    as [_ H]; [reflexivity|left; reflexivity|].
  destruct H as (Hres & _ & Hn); [lia|].
  split; [exact Hres|exact Hn].
Defined.

(** C7: the requests of a call are numbered 0, 1, 2, ... and every request
    but the last, that is every retried one, whatever made it retry, is
    followed by a sleep of [retry_delay * 2 ^ attempt]; 2 is the backoff
    multiplier.  With [max_retries = 3] and [retry_delay = 1.0], a gateway
    answering 500, 500, then 200 with the body [{"ok":true}] makes the call
    return that object after exactly 3 requests, having slept 1 s and then
    2 s, 3 s in total. *)
Theorem backoff_schedule :
  (forall (env : environment) (method path : string) (max_retries : Z)
          (retry_delay : Q) (t : trace),
      let out := _request_with_retry env method path max_retries retry_delay t in
      let n := (attempts (snd out) - attempts t)%nat in
      attempt_numbers (snd out) = attempt_numbers t ++ map Z.of_nat (seq 0 n)
      /\ sleeps (snd out)
         = sleeps t ++ map (fun k => backoff retry_delay (Z.of_nat k)) (seq 0 (n - 1)))
  /\ (forall (retry_delay : Q) (k : nat),
        (backoff retry_delay (Z.of_nat k)
         == retry_delay * inject_Z backoff_multiplier ^ Z.of_nat k)%Q)
  /\ (let out := _request_with_retry Scenario.two_failures_then_ok
                                     "GET" "/portfolio/accounts" 3 1 [] in
      fst out = Ok (JObject [("ok", JBool true)])
      /\ attempts (snd out) = 3%nat
      /\ sleeps (snd out) = [1%Q; 2%Q]
      /\ (1 + 2 <= total (sleeps (snd out)))%Q).
Proof.
  split; [|split].
  - intros env method path mr d t. cbn zeta. unfold _request_with_retry.
    destruct (retry_loop_delta env method path mr d (Z.to_nat (mr + 1)) 0 t)
      as (delta & n & Hd & _ & _ & _ & Hnum & Hsl).
    { destruct (Z.to_nat (mr + 1)) eqn:E; [left; reflexivity|right; lia]. }
    rewrite Hd, attempts_app, attempt_numbers_app, sleeps_app.
    assert (Hlen : attempts delta = n).
    { now rewrite attempts_numbers, Hnum, length_map, length_seq. }
    replace (attempts t + attempts delta - attempts t)%nat with n by lia.
    split; f_equal.
    + rewrite Hnum. apply map_ext. intros i. lia.
    + rewrite Hsl. apply map_ext. intros i. f_equal.
  - exact backoff_power.
  - vm_compute. repeat split; discriminate.
Qed.

(** *** What a caller of the transport can rely on *)

Lemma loop_body_spec mr d k out :
  match loop_body mr d k out with
  | Raise e => is_auth_required e = answered_401 out /\ is_session_error e = false
  | _ => answered_401 out = false
  end.
Proof.
  unfold loop_body, try_block, handlers, raise_for_status.
  destruct out as [r|m|m]; cbn [answered_401].
  - destruct (status_code r =? 401) eqn:E1.
    { cbn. rewrite andb_false_r. cbn. auto. }
    destruct (status_code r =? 403) eqn:E3.
    { cbn. rewrite andb_false_r. cbn. auto. }
    destruct (500 <=? status_code r); cbn [andb].
    + destruct (k <? mr) eqn:E.
      * unfold sleep_and_continue.
        destruct (float_overflow_attempt <=? k); [|reflexivity].
        unfold overflow_error. destruct (PyStr.contains _ _); cbn; auto.
      * cbn [andb is_auth_required Session.status_code_is is_session_error]. auto.
    + destruct (is_success r).
      * destruct (PyStr.is_empty (content r)); [reflexivity|].
        destruct (json_body r); [|reflexivity].
        destruct (k <? mr); cbn [andb]; [destruct (PyStr.contains _ _)|];
          try (unfold sleep_and_continue; destruct (float_overflow_attempt <=? k));
          cbn; auto.
      * destruct (k <? mr); cbn [andb]; [destruct (PyStr.contains _ _)|];
          try (unfold sleep_and_continue; destruct (float_overflow_attempt <=? k));
          cbn; auto.
  - destruct (k <? mr);
      try (unfold sleep_and_continue; destruct (float_overflow_attempt <=? k));
      cbn; auto.
  - destruct (k <? mr); cbn [andb]; [destruct (PyStr.contains _ _)|];
      try (unfold sleep_and_continue; destruct (float_overflow_attempt <=? k));
      cbn; auto.
Qed.

Section LoopResult.
Variable env : environment.
Variables (method path : string) (max_retries : Z) (retry_delay : Q).

Lemma retry_loop_result :
  forall remaining k t,
    let out := retry_loop env method path max_retries retry_delay remaining k t in
    answers path 401 (snd out)
    = (answers path 401 t + (if raised_auth_required (fst out) then 1 else 0))%nat
    /\ (forall e, fst out = Err e -> is_session_error e = false).
Proof.
  induction remaining as [|rem IH]; intros k t; cbn zeta.
  - cbn [retry_loop fst snd raised_auth_required is_auth_required
                    Session.status_code_is].
    split; [lia|]. intros e [= <-]. reflexivity.
  - rewrite retry_loop_S.
    pose proof (loop_body_spec max_retries retry_delay k (env t method path)) as Hs.
    destruct (loop_body max_retries retry_delay k (env t method path)) as [v|e|x].
    + cbn [fst snd raised_auth_required]. split; [|discriminate].
      rewrite answers_snoc. cbn [is_answer].
      destruct (env t method path) as [r| |]; cbn [answered_401] in Hs; try lia.
      rewrite Hs, andb_false_r. lia.
    + cbn [fst snd raised_auth_required]. destruct Hs as [Ha Hse]. split.
      * rewrite answers_snoc, Ha. cbn [is_answer].
        destruct (env t method path) as [r| |]; cbn [answered_401]; try lia.
        rewrite String.eqb_refl. reflexivity.
      * intros e' [= <-]. exact Hse.
    + specialize (IH (k + 1)
                     ((t ++ [Attempt method path k (env t method path)]) ++ [Sleep x])).
      cbn zeta in IH. destruct IH as [IHa IHe]. split; [|exact IHe].
      rewrite IHa, !answers_snoc. cbn [is_answer].
      destruct (env t method path) as [r| |]; cbn [answered_401] in Hs; try lia.
      rewrite Hs, andb_false_r. lia.
Qed.

End LoopResult.

(** *** [_post] *)

Lemma own_other method path q delta :
  Forall (own method path) delta -> path <> q ->
  attempts_to q delta = 0%nat /\ calls_to q delta = 0%nat
  /\ forall c, answers q c delta = 0%nat.
Proof.
  intros Hown Hq. induction Hown as [|e delta He _ IH]; [now cbn|].
  destruct IH as (IH1 & IH2 & IH3).
  unfold attempts_to, calls_to, answers in *.
  destruct e as [m p k o|d]; cbn; [|auto].
  destruct He as [_ ->].
  apply String.eqb_neq in Hq. rewrite Hq. cbn.
  repeat split; auto. intros c. destruct o; auto.
Qed.

Lemma own_calls method path delta :
  Forall (own method path) delta ->
  calls_to path delta
  = List.length (filter (fun k => k =? 0) (attempt_numbers delta)).
Proof.
  intros Hown. unfold calls_to.
  induction Hown as [|e delta He _ IH]; [reflexivity|].
  destruct e as [m p k o|d]; cbn; [|exact IH].
  destruct He as [_ ->]. rewrite String.eqb_refl. cbn.
  destruct (k =? 0); cbn; now rewrite IH.
Qed.

Lemma no_zero_from (k : Z) (n : nat) :
  0 < k ->
  filter (fun j => j =? 0) (map (fun i => k + Z.of_nat i) (seq 0 n)) = [].
Proof.
  intros Hk. induction (seq 0 n) as [|i l IH]; [reflexivity|].
  cbn. replace (k + Z.of_nat i =? 0) with false by (symmetry; apply Z.eqb_neq; lia).
  exact IH.
Qed.

Section Post.
Variable env : environment.
Variable path : string.

Lemma post_delta (t : trace) :
  exists delta,
    snd (_post env path t) = t ++ delta
    /\ Forall (own "POST" path) delta
    /\ calls_to path delta = 1%nat.
Proof.
  unfold _post, _request_with_retry.
  destruct (retry_loop_delta env "POST" path 3 1 (Z.to_nat (3 + 1)) 0 t)
    as (delta & n & Hd & Hown & _ & Hpos & Hnum & _); [right; reflexivity|].
  exists delta. repeat split; auto.
  rewrite (own_calls _ _ _ Hown), Hnum.
  destruct n as [|n]; [exfalso; apply Hpos; [discriminate|reflexivity]|].
  rewrite numbers_shift. cbn [filter Z.eqb]. rewrite no_zero_from by lia.
  reflexivity.
Qed.

(** What [_post] adds starts with its request numbered 0. *)
Lemma post_first (t : trace) :
  exists out rest,
    snd (_post env path t) = t ++ Attempt "POST" path 0 out :: rest
    /\ Forall (own "POST" path) rest
    /\ calls_to path rest = 0%nat.
Proof.
  unfold _post, _request_with_retry. change (Z.to_nat (3 + 1)) with 4%nat.
  rewrite retry_loop_S.
  destruct (loop_body 3 1 0 (env t "POST" path)) as [v|e|x].
  - exists (env t "POST" path), []. now repeat split.
  - exists (env t "POST" path), []. now repeat split.
  - destruct (retry_loop_delta env "POST" path 3 1 3 (0 + 1)
                               ((t ++ [Attempt "POST" path 0 (env t "POST" path)])
                                  ++ [Sleep x]))
      as (delta & n & Hd & Hown & _ & _ & Hnum & _); [right; reflexivity|].
    exists (env t "POST" path), (Sleep x :: delta). rewrite Hd.
    rewrite <- !app_assoc. cbn [app]. split; [reflexivity|]. split.
    + constructor; [exact I|exact Hown].
    + change (calls_to path (Sleep x :: delta)) with (calls_to path delta).
      rewrite (own_calls _ _ _ Hown), Hnum, no_zero_from by lia. reflexivity.
Qed.

Lemma post_calls_self (t : trace) :
  calls_to path (snd (_post env path t)) = (calls_to path t + 1)%nat.
Proof.
  destruct (post_delta t) as (delta & -> & _ & H).
  now rewrite calls_to_app, H.
Qed.

Lemma post_other (t : trace) (q : string) :
  path <> q ->
  attempts_to q (snd (_post env path t)) = attempts_to q t
  /\ calls_to q (snd (_post env path t)) = calls_to q t
  /\ forall c, answers q c (snd (_post env path t)) = answers q c t.
Proof.
  intros Hq. destruct (post_delta t) as (delta & -> & Hown & _).
  destruct (own_other _ _ _ _ Hown Hq) as (H1 & H2 & H3).
  rewrite attempts_to_app, calls_to_app, H1, H2.
  repeat split; try lia. intros c. rewrite answers_app, H3. lia.
Qed.


Lemma post_not_session_error (t : trace) (e : exn) :
  fst (_post env path t) = Err e -> is_session_error e = false.
Proof. apply (retry_loop_result env "POST" path 3 1). Qed.

(** A 2xx response to the first request is what [_post] returns: its
    JSON value, or the empty map when the body is empty. *)
Lemma post_success (t : trace) (r : Response) (v : json) :
  env t "POST" path = Responded r ->
  is_success r = true ->
  payload_of r = Some v ->
  _post env path t = (Ok v, t ++ [Attempt "POST" path 0 (Responded r)]).
Proof.
  intros Hr Hs Hv. unfold _post, _request_with_retry.
  change (Z.to_nat (3 + 1)) with 4%nat. rewrite retry_loop_S, Hr.
  unfold loop_body, try_block, raise_for_status. rewrite Hs.
  unfold is_success in Hs. apply andb_true_iff in Hs. destruct Hs as [H1 H2].
  apply Z.leb_le in H1. apply Z.leb_le in H2.
  replace (status_code r =? 401) with false by (symmetry; apply Z.eqb_neq; lia).
  replace (status_code r =? 403) with false by (symmetry; apply Z.eqb_neq; lia).
  replace (500 <=? status_code r) with false by (symmetry; apply Z.leb_gt; lia).
  cbn [andb]. unfold payload_of in Hv.
  destruct (PyStr.is_empty (content r)); [now injection Hv as <-|].
  destruct (json_body r) as [m|w]; [discriminate|now injection Hv as <-].
Qed.

End Post.

End HttpFacts.

(** ** The session *)

Module SessionFacts.
Import Session Trace TraceFacts Classify HttpFacts.


Lemma reauth_is_not_status : reauthenticate_path <> auth_status_path.
Proof. discriminate. Qed.

Lemma reauthenticate_events (env : environment) (st : state) :
  let out := _reauthenticate env st in
  calls_to reauthenticate_path (events (snd out))
  = (calls_to reauthenticate_path (events st) + 1)%nat
  /\ calls_to auth_status_path (events (snd out))
     = calls_to auth_status_path (events st)
  /\ answers auth_status_path 401 (events (snd out))
     = answers auth_status_path 401 (events st)
  /\ (forall e, fst out = Err e -> e = reauthentication_failed).
Proof.
  cbn zeta. unfold _reauthenticate.
  pose proof (post_calls_self env reauthenticate_path (events st)) as Hc.
  destruct (post_other env reauthenticate_path (events st) auth_status_path
                       reauth_is_not_status) as (_ & Hs & Ha).
  destruct (Http._post env reauthenticate_path (events st)) as [[v|e] t1];
    cbn [fst snd events set_events] in *; repeat split; auto;
    intros e'; intros [= <-]; reflexivity.
Qed.

Section WithEnvironment.
Variable env : environment.

Lemma check_auth_status_rec_eq (d : nat) (st : state) :
  check_auth_status_rec env d st =
  match check_try_block env st with
  | (Ok status, st1) => (Ok status, st1)
  | (Err (IBAPIError m code), st1) =>
      if status_code_is 401 code then
        match d with
        | O => (Err reauthentication_failed, snd (_reauthenticate out_of_stack st1))
        | S d' =>
            match _reauthenticate env st1 with
            | (Err e, st2) => (Err e, st2)
            | (Ok _, st2) => check_auth_status_rec env d' st2
            end
        end
      else (Err (IBAPIError m code), st1)
  | (Err e, st1) => (Err e, st1)
  end.
Proof. destruct d; reflexivity. Qed.

(** The [try] block sends what its [_post] sends, and raises a 401 error
    exactly when its [_post] does. *)
Lemma check_try_block_post (st : state) :
  let out := check_try_block env st in
  let sent := Http._post env auth_status_path (events st) in
  events (snd out) = snd sent
  /\ raised_auth_required (fst out) = raised_auth_required (fst sent)
  /\ stopped_after_reauth (fst out) = false.
Proof.
  cbn zeta. unfold check_try_block.
  pose proof (post_not_session_error env auth_status_path (events st)) as Hse.
  destruct (Http._post env auth_status_path (events st)) as [[v|e] t1].
  - cbn [fst snd] in *. destruct (get_authenticated v) as [[|]|e] eqn:Ev.
    + cbn [fst snd raised_auth_required stopped_after_reauth].
      destruct (_keep_alive_task _) as [tid|]; [destruct (done tid _)|]; auto.
    + auto.
    + destruct v; cbn in Ev; try discriminate; injection Ev as <-; auto.
  - cbn [fst snd] in *. specialize (Hse e eq_refl).
    repeat split; auto.
    destruct e as [m [c|]| | | | |]; cbn in *; try discriminate; auto.
    apply orb_false_iff in Hse. apply Hse.
Qed.


End WithEnvironment.







(** C10: [_reauthenticate] returns normally whenever its [_post] returns,
    whatever the payload, and raises the re-authentication error whenever
    its [_post] raises, whatever the exception; so after a 401 on the
    status check, a re-authentication answered with any payload is
    followed by a new run of the status check. *)
Theorem reauthenticate_never_inspects_payload :
  forall (env : environment) (st : state),
    (forall payload t1,
        Http._post env reauthenticate_path (events st) = (Ok payload, t1) ->
        _reauthenticate env st = (Ok tt, set_events t1 st))
    /\ (forall e t1,
          Http._post env reauthenticate_path (events st) = (Err e, t1) ->
          _reauthenticate env st = (Err reauthentication_failed, set_events t1 st))
    /\ (forall depth st0 m code payload t1,
          check_try_block env st0 = (Err (IBAPIError m code), st) ->
          status_code_is 401 code = true ->
          Http._post env reauthenticate_path (events st) = (Ok payload, t1) ->
          _check_auth_status env (S depth) st0
          = _check_auth_status env depth (set_events t1 st)).
Proof.
  intros env st. repeat split.
  - intros payload t1 H. unfold _reauthenticate. now rewrite H.
  - intros e t1 H. unfold _reauthenticate. now rewrite H.
  - intros depth st0 m code payload t1 Htry Hcode Hpost.
    unfold _check_auth_status. rewrite check_auth_status_rec_eq, Htry, Hcode.
    unfold _reauthenticate. now rewrite Hpost.
Qed.

Lemma reauthenticate_never_inspects_payload_witness :
  let env := Scenario.reauth_reports_unauthenticated in
  let st := snd (check_try_block env __init__) in
  let t1 := snd (Http._post env reauthenticate_path (events st)) in
  fst (Http._post env reauthenticate_path (events st))
  = Ok (JObject [("authenticated", JBool false)])
  /\ _reauthenticate env st = (Ok tt, set_events t1 st)
  /\ _check_auth_status env 1 __init__ = _check_auth_status env 0 (set_events t1 st)
  /\ fst (_check_auth_status env 1 __init__)
     = Ok (JObject [("authenticated", JBool true)]).
Proof.
  cbn zeta.
  destruct (reauthenticate_never_inspects_payload
              Scenario.reauth_reports_unauthenticated
              (snd (check_try_block Scenario.reauth_reports_unauthenticated __init__)))
    as (H1 & _ & H3).
  split; [reflexivity|]. split.
  - apply (H1 (JObject [("authenticated", JBool false)])). reflexivity.
  - split.
    + apply (H3 0%nat __init__ "Authentication required" (Some 401)
                (JObject [("authenticated", JBool false)])); reflexivity.
    + reflexivity.
Defined.

(** C9: when the auth-status call returns a map in which the key
    [authenticated] is absent or has a falsy value, [_check_auth_status]
    stores the map and raises the not-authenticated error; in particular a
    2xx response with an empty body, which the transport turns into the
    empty map, is treated as not authenticated. *)
Theorem absent_or_falsy_flag_is_not_authenticated :
  forall (env : environment) (depth : nat) (st : state),
    (forall items t1,
        Http._post env auth_status_path (events st) = (Ok (JObject items), t1) ->
        (assoc "authenticated" items = None
         \/ exists v, assoc "authenticated" items = Some v /\ truthy v = false) ->
        _check_auth_status env depth st
        = (Err not_authenticated,
           set_session_status (Some (JObject items)) (set_events t1 st)))
    /\ (forall r,
          env (events st) "POST" auth_status_path = Responded r ->
          Http.is_success r = true ->
          content r = EmptyString ->
          Http._post env auth_status_path (events st)
          = (Ok (JObject []),
             events st ++ [Attempt "POST" auth_status_path 0 (Responded r)])
          /\ _check_auth_status env depth st
             = (Err not_authenticated,
                set_session_status
                  (Some (JObject []))
                  (set_events
                     (events st ++ [Attempt "POST" auth_status_path 0 (Responded r)])
                     st))).
Proof.
  intros env depth st.
  assert (Hmap : forall items t1,
             Http._post env auth_status_path (events st) = (Ok (JObject items), t1) ->
             (assoc "authenticated" items = None
              \/ exists v, assoc "authenticated" items = Some v /\ truthy v = false) ->
             _check_auth_status env depth st
             = (Err not_authenticated,
                set_session_status (Some (JObject items)) (set_events t1 st))).
  { intros items t1 Hpost Hflag.
    unfold _check_auth_status. rewrite check_auth_status_rec_eq.
    unfold check_try_block. rewrite Hpost. cbn [get_authenticated].
    destruct Hflag as [->|(v & -> & ->)]; reflexivity. }
  split; [exact Hmap|].
  intros r Hr Hs Hc.
  assert (Hpost : Http._post env auth_status_path (events st)
                  = (Ok (JObject []),
                     events st ++ [Attempt "POST" auth_status_path 0 (Responded r)])).
  { apply post_success; auto. unfold payload_of. now rewrite Hc. }
  split; [exact Hpost|].
  apply Hmap; [exact Hpost|]. left. reflexivity.
Qed.

Lemma absent_or_falsy_flag_is_not_authenticated_witness :
  (let env := Scenario.not_logged_in in
   fst (_check_auth_status env 5 __init__) = Err not_authenticated
   /\ _session_status (self (snd (_check_auth_status env 5 __init__)))
      = Some (JObject [("authenticated", JBool false)]))
  /\ (let env := Scenario.always Scenario.ok_empty in
      fst (Http._post env auth_status_path []) = Ok (JObject [])
      /\ fst (_check_auth_status env 5 __init__) = Err not_authenticated).
Proof.
  split; cbn zeta.
  - destruct (absent_or_falsy_flag_is_not_authenticated
                Scenario.not_logged_in 5 __init__) as [H _].
    rewrite (H [("authenticated", JBool false)]
               [Attempt "POST" auth_status_path 0
                        (Scenario.ok_with "authenticated" false)]).
    + split; reflexivity.
    + reflexivity.
    + right. exists (JBool false). split; reflexivity.
  - destruct (absent_or_falsy_flag_is_not_authenticated
                (Scenario.always Scenario.ok_empty) 5 __init__) as [_ H].
    destruct (H (mkResponse 200 "" (inl "Expecting value: line 1 column 1 (char 0)") ""))
      as [H1 H2]; try reflexivity.
    cbn [events __init__] in H1. rewrite H1, H2. split; reflexivity.
Defined.

(** *** After a failure *)

Ltac settle :=
  cbn [fst snd]; repeat split; auto; try lia;
  try (let H := fresh in intros H; first [discriminate H | congruence]).

Lemma reauthenticate_self (env : environment) (st : state) :
  self (snd (_reauthenticate env st)) = self st.
Proof.
  unfold _reauthenticate.
  now destruct (Http._post env reauthenticate_path (events st)) as [[?|?] ?].
Qed.

Section Failure.
Variable env : environment.

Lemma check_try_block_self (st : state) :
  let out := check_try_block env st in
  _last_auth_check (self (snd out)) = _last_auth_check (self st)
  /\ _auth_check_interval (self (snd out)) = _auth_check_interval (self st)
  /\ (forall payload t1,
        Http._post env auth_status_path (events st) = (Ok payload, t1) ->
        _session_status (self (snd out)) = Some payload)
  /\ (fst out = Err not_authenticated ->
      exists payload,
        _session_status (self (snd out)) = Some payload
        /\ get_authenticated payload = Ok false).
Proof.
  cbn zeta. unfold check_try_block.
  pose proof (post_not_session_error env auth_status_path (events st)) as Hse.
  destruct (Http._post env auth_status_path (events st)) as [[v|e] t1];
    cbn [fst snd] in *.
  - destruct (get_authenticated v) as [[|]|e] eqn:Ev; cbn [fst snd].
    + repeat split; try discriminate.
      * destruct (_keep_alive_task _) as [tid|]; [destruct (done tid _)|]; reflexivity.
      * destruct (_keep_alive_task _) as [tid|]; [destruct (done tid _)|]; reflexivity.
      * intros payload t' [= <- <-].
        destruct (_keep_alive_task _) as [tid|]; [destruct (done tid _)|]; reflexivity.
    + repeat split.
      * now intros payload t' [= <- <-].
      * intros _. exists v. split; [reflexivity|exact Ev].
    + repeat split.
      * now intros payload t' [= <- <-].
      * intros [= ->]. destruct v; cbn in Ev; discriminate.
  - repeat split; try discriminate.
    intros [= ->]. specialize (Hse _ eq_refl). discriminate.
Qed.

Lemma check_auth_status_self :
  forall (d : nat) (st : state),
    let out := check_auth_status_rec env d st in
    _last_auth_check (self (snd out)) = _last_auth_check (self st)
    /\ _auth_check_interval (self (snd out)) = _auth_check_interval (self st)
    /\ (calls_to auth_status_path (events st)
        < calls_to auth_status_path (events (snd out)))%nat
    /\ (fst out = Err not_authenticated ->
        exists payload,
          _session_status (self (snd out)) = Some payload
          /\ get_authenticated payload = Ok false).
Proof.
  induction d as [|d IH]; intros st; cbn zeta; rewrite check_auth_status_rec_eq;
    destruct (check_try_block_self st) as (T1 & T2 & _ & T4);
    destruct (check_try_block_post env st) as (Hev & _ & _);
    pose proof (post_calls_self env auth_status_path (events st)) as Hc;
    rewrite <- Hev in Hc;
    destruct (check_try_block env st) as [[v|e] st1]; cbn [fst snd] in *.
  all: try solve [settle].
  all: destruct e as [m code| | | | |]; try solve [settle].
  all: destruct (status_code_is 401 code) eqn:E; cbn [fst snd];
    [|solve [settle]].
  - destruct (reauthenticate_events out_of_stack st1) as (_ & R2 & _ & _).
    rewrite (reauthenticate_self out_of_stack st1). settle.
  - destruct (reauthenticate_events env st1) as (_ & R2 & _ & R4).
    pose proof (reauthenticate_self env st1) as Rself.
    destruct (_reauthenticate env st1) as [[u|e2] st2]; cbn [fst snd] in *.
    + destruct (IH st2) as (I1 & I2 & I3 & I4). rewrite Rself in I1, I2.
      rewrite I1, I2. settle.
    + rewrite Rself, (R4 e2 eq_refl). settle.
Qed.

Lemma stale_later (ct ct' : Q) (st st' : state) :
  _last_auth_check (self st') = _last_auth_check (self st) ->
  _auth_check_interval (self st') = _auth_check_interval (self st) ->
  (ct <= ct')%Q ->
  stale ct st = true -> stale ct' st' = true.
Proof.
  unfold stale. intros -> -> Hle.
  destruct (_last_auth_check (self st)) as [last|]; [|reflexivity].
  intros H. apply negb_true_iff in H. apply negb_true_iff.
  destruct (Qle_bool (ct' - last) (_auth_check_interval (self st))) eqn:E; [|reflexivity].
  apply Qle_bool_iff in E.
  assert (Hc : (ct - last <= _auth_check_interval (self st))%Q) by lra.
  apply Qle_bool_iff in Hc. congruence.
Qed.

Lemma ensure_live_checks_when_stale (depth : nat) (ct : Q) (st : state) :
  stale ct st = true ->
  (calls_to auth_status_path (events st)
   < calls_to auth_status_path (events (snd (_ensure_live env depth ct st))))%nat.
Proof.
  intros Hst. unfold _ensure_live.
  change (stale ct (set_session_lock true st)) with (stale ct st). rewrite Hst.
  unfold _check_auth_status.
  destruct (check_auth_status_self depth (set_session_lock true st))
    as (_ & _ & H & _).
  destruct (check_auth_status_rec env depth (set_session_lock true st))
    as [[v|e] st1]; exact H.
Qed.

End Failure.

(** C8: when [_ensure_live] raises, [_last_auth_check] is what it was, so
    an [_ensure_live] that follows, at a clock reading that is not earlier,
    finds the cache stale and sends a status check again; but a payload
    that the status call returned has replaced [_session_status] before
    the error was raised, so that after the not-authenticated error the
    cache holds a payload that does not report an authenticated
    session. *)
Theorem failure_keeps_timestamp_not_cache :
  forall (env : environment) (depth : nat) (ct : Q) (st st' : state) (e : exn),
    _ensure_live env depth ct st = (Err e, st') ->
    _last_auth_check (self st') = _last_auth_check (self st)
    /\ (forall ct', (ct <= ct')%Q ->
          stale ct' st' = true
          /\ (calls_to auth_status_path (events st')
              < calls_to auth_status_path
                  (events (snd (_ensure_live env depth ct' st'))))%nat)
    /\ (forall payload t1,
          Http._post env auth_status_path (events st) = (Ok payload, t1) ->
          _session_status (self st') = Some payload)
    /\ (e = not_authenticated ->
        exists payload,
          _session_status (self st') = Some payload
          /\ get_authenticated payload = Ok false).
Proof.
  intros env depth ct st st' e H. unfold _ensure_live in H.
  change (stale ct (set_session_lock true st)) with (stale ct st) in H.
  destruct (stale ct st) eqn:Hst; [|discriminate].
  unfold _check_auth_status in H.
  destruct (check_auth_status_self env depth (set_session_lock true st))
    as (S1 & S2 & _ & S4).
  pose proof (check_auth_status_rec_eq env depth (set_session_lock true st)) as Heq.
  destruct (check_try_block_self env (set_session_lock true st)) as (_ & _ & T3 & _).
  destruct (check_try_block_post env (set_session_lock true st)) as (_ & Hauth & _).
  destruct (check_auth_status_rec env depth (set_session_lock true st))
    as [[v|e1] st1]; [discriminate|].
  injection H as <- <-. cbn [fst snd] in *.
  assert (Hlast : _last_auth_check (self (set_session_lock false st1))
                  = _last_auth_check (self st)) by exact S1.
  assert (Hint : _auth_check_interval (self (set_session_lock false st1))
                 = _auth_check_interval (self st)) by exact S2.
  split; [exact Hlast|]. split; [|split].
  - intros ct' Hle.
    assert (Hst' : stale ct' (set_session_lock false st1) = true)
      by (apply (stale_later ct ct' st); assumption).
    split; [exact Hst'|]. now apply ensure_live_checks_when_stale.
  - intros payload t1 Hpost.
    change (events (set_session_lock true st)) with (events st) in T3, Hauth.
    specialize (T3 payload t1 Hpost). rewrite Hpost in Hauth. cbn [fst raised_auth_required] in Hauth.
    destruct (check_try_block env (set_session_lock true st)) as [[w|e2] st2];
      cbn [fst snd] in *.
    + discriminate.
    + destruct e2 as [m code| | | | |];
        cbn [raised_auth_required is_auth_required] in Hauth;
        try rewrite Hauth in Heq; injection Heq as _ ->; exact T3.
  - intros ->. apply S4. reflexivity.
Qed.

Lemma failure_keeps_timestamp_not_cache_witness :
  let env := Scenario.not_logged_in in
  let out := _ensure_live env 5 1000 __init__ in
  fst out = Err not_authenticated
  /\ _last_auth_check (self (snd out)) = None
  /\ _session_status (self (snd out)) = Some (JObject [("authenticated", JBool false)])
  /\ (calls_to auth_status_path (events (snd out))
      < calls_to auth_status_path
          (events (snd (_ensure_live env 5 1001 (snd out)))))%nat.
Proof.
  cbn zeta.
  destruct (failure_keeps_timestamp_not_cache
              Scenario.not_logged_in 5 1000 __init__
              (snd (_ensure_live Scenario.not_logged_in 5 1000 __init__))
              not_authenticated eq_refl) as (H1 & H2 & H3 & H4).
  split; [reflexivity|]. split; [exact H1|]. split.
  - apply (H3 _ [Attempt "POST" auth_status_path 0
                         (Scenario.ok_with "authenticated" false)]).
    reflexivity.
  - apply (H2 1001%Q). vm_compute. discriminate.
Defined.

End SessionFacts.


(** ** One operation after the other: the keep-alive task *)

Module SequentialFacts.
Import Session Sequential Trace TraceFacts Classify HttpFacts SessionFacts.

Lemma all_done_no_running ts : all_done ts = true -> filter is_running ts = [].
Proof.
  induction ts as [|[|] ts IH]; cbn; [reflexivity|discriminate|exact IH].
Qed.

Lemma all_done_nth ts tid : all_done ts = true -> nth_error ts tid <> Some Running.
Proof.
  revert tid. induction ts as [|[|] ts IH]; intros [|tid]; cbn; try discriminate.
  intros H. now apply IH.
Qed.

Lemma all_done_is_done st tid : all_done (tasks st) = true -> done tid st = true.
Proof.
  intros H. unfold done. pose proof (all_done_nth _ tid H) as Hn.
  destruct (nth_error (tasks st) tid) as [[|]|]; congruence.
Qed.

Lemma newest_is_running ds :
  nth_error (ds ++ [Running]) (List.length ds) = Some Running.
Proof. induction ds as [|d ds IH]; [reflexivity|exact IH]. Qed.

Lemma finish_newest ds :
  replace_nth (List.length ds) Done (ds ++ [Running]) = ds ++ [Done].
Proof. induction ds as [|d ds IH]; [reflexivity|]. cbn. now rewrite IH. Qed.

Lemma all_done_snoc ds : all_done ds = true -> all_done (ds ++ [Done]) = true.
Proof. intros H. unfold all_done in *. now rewrite forallb_app, H. Qed.

Lemma consistent_running st live :
  consistent st live ->
  keep_alive_running st = live /\ running_tasks st = (if live then 1 else 0)%nat.
Proof.
  unfold consistent, keep_alive_running, running_tasks. destruct live.
  - intros (ds & Ht & Hd & Hh). rewrite Hh. unfold done. rewrite Ht, newest_is_running.
    split; [reflexivity|].
    rewrite filter_app, (all_done_no_running _ Hd). reflexivity.
  - intros H. rewrite (all_done_no_running _ H). split; [|reflexivity].
    destruct (_keep_alive_task (self st)) as [tid|]; [|reflexivity].
    now rewrite (all_done_is_done _ _ H).
Qed.

Lemma reauthenticate_keeps (env : environment) (st : state) :
  self (snd (_reauthenticate env st)) = self st
  /\ tasks (snd (_reauthenticate env st)) = tasks st.
Proof.
  unfold _reauthenticate.
  destruct (Http._post env reauthenticate_path (events st)) as [[?|?] ?]; now split.
Qed.

Section WithEnvironment.
Variable env : environment.

(** Only a successful [try] block touches the tasks: it starts one unless
    the adapter's task is still running. *)
Lemma check_try_block_tasks (st : state) :
  let out := check_try_block env st in
  if is_ok (fst out) then
    if keep_alive_running st then
      tasks (snd out) = tasks st
      /\ _keep_alive_task (self (snd out)) = _keep_alive_task (self st)
    else
      tasks (snd out) = tasks st ++ [Running]
      /\ _keep_alive_task (self (snd out)) = Some (List.length (tasks st))
  else
    tasks (snd out) = tasks st
    /\ _keep_alive_task (self (snd out)) = _keep_alive_task (self st).
Proof.
  cbn zeta. unfold check_try_block, keep_alive_running.
  destruct (Http._post env auth_status_path (events st)) as [[v|e] t1];
    [|cbn; now split].
  destruct (get_authenticated v) as [[|]|e]; try (cbn; now split).
  cbn [fst snd is_ok].
  change (_keep_alive_task (self (set_session_status (Some v) (set_events t1 st))))
    with (_keep_alive_task (self st)).
  destruct (_keep_alive_task (self st)) as [tid|] eqn:Eh; [|cbn; now split].
  change (done tid (set_session_status (Some v) (set_events t1 st))) with (done tid st).
  destruct (done tid st); cbn; now split.
Qed.

Lemma check_auth_status_tasks :
  forall (d : nat) (st : state),
    let out := check_auth_status_rec env d st in
    if is_ok (fst out) then
      if keep_alive_running st then
        tasks (snd out) = tasks st
        /\ _keep_alive_task (self (snd out)) = _keep_alive_task (self st)
      else
        tasks (snd out) = tasks st ++ [Running]
        /\ _keep_alive_task (self (snd out)) = Some (List.length (tasks st))
    else
      tasks (snd out) = tasks st
      /\ _keep_alive_task (self (snd out)) = _keep_alive_task (self st).
Proof.
  induction d as [|d IH]; intros st; cbn zeta; rewrite check_auth_status_rec_eq;
    pose proof (check_try_block_tasks st) as Ht; cbn zeta in Ht;
    destruct (check_try_block env st) as [[v|e] st1]; cbn [fst snd is_ok] in *;
    try exact Ht.
  all: destruct e as [m code| | | | |]; try exact Ht.
  all: destruct (status_code_is 401 code); [|exact Ht].
  - destruct (reauthenticate_keeps out_of_stack st1) as [Rs Rt].
    cbn [fst snd is_ok]. rewrite Rs, Rt. exact Ht.
  - destruct (reauthenticate_keeps env st1) as [Rs Rt];
      destruct (_reauthenticate env st1) as [[u|e2] st2]; cbn [fst snd is_ok] in *.
    + specialize (IH st2). cbn zeta in IH.
      destruct Ht as [Ht1 Ht2].
      assert (Hk : keep_alive_running st2 = keep_alive_running st).
      { unfold keep_alive_running, done. now rewrite Rs, Rt, Ht1, Ht2. }
      rewrite Hk, Rs, Rt, Ht1, Ht2 in IH. exact IH.
    + rewrite Rs, Rt. exact Ht.
Qed.

Variable depth : nat.

Lemma consistent_ext (st st' : state) (live : bool) :
  tasks st' = tasks st ->
  _keep_alive_task (self st') = _keep_alive_task (self st) ->
  consistent st live -> consistent st' live.
Proof. unfold consistent. now intros -> ->. Qed.

Lemma ensure_live_consistent (ct : Q) (st : state) (live : bool) :
  consistent st live ->
  consistent (snd (_ensure_live env depth ct st))
             (live_after env depth (EnsureLive ct) st live).
Proof.
  intros Hc. unfold live_after, successful_check, _ensure_live.
  change (stale ct (set_session_lock true st)) with (stale ct st).
  destruct (stale ct st); cbn [andb orb].
  - unfold _check_auth_status.
    pose proof (check_auth_status_tasks depth (set_session_lock true st)) as Ht.
    cbn zeta in Ht.
    change (keep_alive_running (set_session_lock true st))
      with (keep_alive_running st) in Ht.
    destruct (consistent_running _ _ Hc) as [Hk _]. rewrite Hk in Ht.
    destruct (check_auth_status_rec env depth (set_session_lock true st))
      as [[v|e] st1]; cbn [fst snd is_ok orb] in *.
    + destruct live; destruct Ht as [Ht1 Ht2].
      * apply (consistent_ext st); auto.
      * unfold consistent. exists (tasks st). repeat split; auto.
    + destruct Ht as [Ht1 Ht2]. apply (consistent_ext st); auto.
  - cbn [snd]. apply (consistent_ext st); auto.
Qed.

(** Whatever the ping does, the loop goes on to its next iteration; a
    cancellation during the sleep ends it without a ping. *)
Lemma keep_alive_iteration_spec (st : state) :
  (exists st1,
      keep_alive_iteration env Resumed st = (NextIteration, st1)
      /\ self st1 = self st /\ tasks st1 = tasks st)
  /\ keep_alive_iteration env (Cancelled DuringSleep) st = (Break, st).
Proof.
  split; [|reflexivity]. unfold keep_alive_iteration, _tickle.
  destruct (Http._post env tickle_path _) as [[v|e] t1]; eexists; repeat split.
Qed.

(** What a cancelled ping leaves in the trace: requests to [/tickle] and
    the sleeps between them, and among them the call's first request as
    soon as there is any progress. *)
Lemma cancelled_tickle_events (progress : nat) (st : state) :
  exists d,
    events (cancelled_tickle env progress st) = events st ++ d
    /\ Forall (own "POST" tickle_path) d
    /\ calls_to tickle_path d = match progress with O => 0%nat | S _ => 1%nat end.
Proof.
  unfold cancelled_tickle. cbn [events set_events].
  destruct (post_first env tickle_path (events st)) as (out & rest & -> & Hown & Hc).
  rewrite firstn_app_2. eexists. split; [reflexivity|].
  destruct progress as [|n]; cbn [firstn].
  - split; [constructor|reflexivity].
  - split.
    + constructor; [now split|now apply Forall_firstn].
    + pose proof (calls_to_firstn tickle_path n rest) as Hle.
      unfold calls_to in *. cbn. lia.
Qed.

(** A cancellation ends the loop wherever it arrives; it touches neither
    the attributes nor the tasks, and adds nothing to the trace but what
    the ping it cuts short had done. *)
Lemma keep_alive_iteration_cancelled (point : cancellation) (st : state) :
  exists st1,
    keep_alive_iteration env (Cancelled point) st = (Break, st1)
    /\ self st1 = self st
    /\ tasks st1 = tasks st
    /\ (point = DuringSleep -> st1 = st)
    /\ exists d,
         events st1 = events st ++ d
         /\ Forall (own "POST" tickle_path) d
         /\ calls_to tickle_path d
            = match point with DuringPing (S _) => 1%nat | _ => 0%nat end.
Proof.
  destruct point as [|progress]; cbn [keep_alive_iteration].
  - exists st. repeat split; auto. exists []. rewrite app_nil_r. now repeat split.
  - eexists. split; [reflexivity|]. split; [reflexivity|]. split; [reflexivity|].
    split; [discriminate|].
    destruct (cancelled_tickle_events progress
                (set_events (events st ++ [Sleep (_keep_alive_interval (self st))]) st))
      as (d & Hd & Hown & Hc).
    cbn [events set_events] in Hd.
    exists (Sleep (_keep_alive_interval (self st)) :: d).
    rewrite Hd, <- app_assoc. split; [reflexivity|]. split.
    + constructor; [exact I|exact Hown].
    + exact Hc.
Qed.

Lemma wake_consistent (tid : nat) (st : state) (live : bool) :
  consistent st live -> consistent (wake env tid st) live.
Proof.
  intros Hc. unfold wake. destruct (done tid st); [exact Hc|].
  destruct (keep_alive_iteration_spec st) as [(st1 & -> & Hs & Ht) _].
  apply (consistent_ext st); auto. now rewrite Hs.
Qed.

Lemma wake_finished (tid : nat) (st : state) :
  all_done (tasks st) = true -> wake env tid st = st.
Proof. intros H. unfold wake. now rewrite (all_done_is_done _ _ H). Qed.

(** The first half of [logout] comes back and leaves no task running; it
    adds nothing to the trace unless it cuts a ping short. *)
Lemma logout_cancel_spec (point : cancellation) (st : state) (live : bool) :
  consistent st live ->
  exists st1,
    logout_cancel env point st = Some st1
    /\ all_done (tasks st1) = true
    /\ self st1 = self st
    /\ (live = false \/ point = DuringSleep -> events st1 = events st).
Proof.
  intros Hc. unfold logout_cancel. destruct live; unfold consistent in Hc.
  - destruct Hc as (ds & Ht & Hd & Hh). rewrite Hh.
    unfold done. rewrite Ht, newest_is_running. unfold cancel_and_await.
    destruct (keep_alive_iteration_cancelled point st)
      as (st1 & -> & Hs & Hts & Hsame & _).
    eexists. split; [reflexivity|]. cbn [tasks self events set_tasks].
    rewrite Hts, Ht, finish_newest. split; [now apply all_done_snoc|].
    split; [exact Hs|]. intros [H|H]; [discriminate|]. now rewrite (Hsame H).
  - assert (Hcancel :
              match _keep_alive_task (self st) with
              | Some tid =>
                  if done tid st then Some st else cancel_and_await env tid point st
              | None => Some st
              end = Some st).
    { destruct (_keep_alive_task (self st)) as [tid|]; [|reflexivity].
      now rewrite (all_done_is_done _ _ Hc). }
    rewrite Hcancel. exists st. now repeat split.
Qed.

(** The second half of [logout] clears the cached status and the time
    stamp, keeps the handle and the tasks, and sends no ping. *)
Lemma logout_finish_spec (st : state) :
  tasks (logout_finish env st) = tasks st
  /\ _session_status (self (logout_finish env st)) = None
  /\ _last_auth_check (self (logout_finish env st)) = None
  /\ _keep_alive_task (self (logout_finish env st)) = _keep_alive_task (self st)
  /\ attempts_to tickle_path (events (logout_finish env st))
     = attempts_to tickle_path (events st).
Proof.
  unfold logout_finish.
  assert (Hpost : attempts_to tickle_path (snd (Http._post env logout_path (events st)))
                  = attempts_to tickle_path (events st)).
  { apply (post_other env logout_path (events st) tickle_path). discriminate. }
  destruct (Http._post env logout_path (events st)) as [r t1]. cbn. now repeat split.
Qed.

(** A [logout] that nothing overlaps returns, leaves no task running,
    clears the cached status and the time stamp, and sends no ping of its
    own. *)
Lemma logout_spec (point : cancellation) (st : state) (live : bool) :
  consistent st live ->
  exists st',
    logout env point st = Some st'
    /\ all_done (tasks st') = true
    /\ _session_status (self st') = None
    /\ _last_auth_check (self st') = None
    /\ _keep_alive_task (self st') = _keep_alive_task (self st)
    /\ (live = false \/ point = DuringSleep ->
        attempts_to tickle_path (events st') = attempts_to tickle_path (events st)).
Proof.
  intros Hc. unfold logout.
  destruct (logout_cancel_spec point st live Hc) as (st1 & -> & Hd & Hs & He).
  destruct (logout_finish_spec st1) as (F1 & F2 & F3 & F4 & F5).
  eexists. split; [reflexivity|]. rewrite F1, F4, F5, Hs.
  repeat split; auto. intros H. now rewrite (He H).
Qed.

Lemma perform_consistent (a : action) (st : state) (live : bool) :
  whole a = true ->
  consistent st live ->
  exists st',
    perform env depth a st = Some st'
    /\ consistent st' (live_after env depth a st live).
Proof.
  intros Hw Hc. destruct a as [ct|point|tid|point|]; try discriminate.
  - eexists. split; [reflexivity|]. now apply ensure_live_consistent.
  - destruct (logout_spec point st live Hc) as (st' & Hl & Hd & _).
    exists st'. split; [exact Hl|exact Hd].
  - eexists. split; [reflexivity|]. cbn. now apply wake_consistent.
Qed.

Lemma run_consistent :
  forall (acts : list action) (st : state) (live : bool),
    forallb whole acts = true ->
    consistent st live ->
    exists st' live',
      run env depth acts st live = Some (st', live') /\ consistent st' live'.
Proof.
  induction acts as [|a acts IH]; intros st live Hw Hc.
  - exists st, live. now split.
  - cbn [forallb] in Hw. apply andb_true_iff in Hw. destruct Hw as [Ha Hw].
    destruct (perform_consistent a st live Ha Hc) as (st1 & Hp & Hc1).
    cbn [run]. rewrite Hp. now apply IH.
Qed.

(** Once every task has finished, nothing but a new [_ensure_live] makes a
    ping possible. *)
Lemma quiet_without_checks :
  forall (later : list action) (st : state) (live : bool),
    all_done (tasks st) = true ->
    forallb no_check later = true ->
    exists st' live',
      run env depth later st live = Some (st', live')
      /\ all_done (tasks st') = true
      /\ attempts_to tickle_path (events st') = attempts_to tickle_path (events st).
Proof.
  induction later as [|a later IH]; intros st live Hd Hn.
  - exists st, live. now repeat split.
  - cbn [forallb] in Hn. apply andb_true_iff in Hn. destruct Hn as [Ha Hn].
    destruct a as [ct|point|tid|point|]; [discriminate| | | |]; cbn [run perform].
    + destruct (logout_spec point st false Hd) as (st1 & Hl & Hd1 & _ & _ & _ & Ht).
      rewrite Hl.
      destruct (IH st1 (live_after env depth (Logout point) st live) Hd1 Hn)
        as (st2 & live2 & Hr & Hd2 & Ht2).
      exists st2, live2. repeat split; auto. rewrite Ht2. apply Ht. now left.
    + rewrite (wake_finished _ _ Hd). now apply IH.
    + destruct (logout_cancel_spec point st false Hd) as (st1 & Hl & Hd1 & _ & He).
      rewrite Hl.
      destruct (IH st1 (live_after env depth (BeginLogout point) st live) Hd1 Hn)
        as (st2 & live2 & Hr & Hd2 & Ht2).
      exists st2, live2. repeat split; auto. rewrite Ht2, He; auto.
    + destruct (logout_finish_spec st) as (F1 & _ & _ & _ & F5).
      destruct (IH (logout_finish env st) (live_after env depth EndLogout st live))
        as (st2 & live2 & Hr & Hd2 & Ht2); [now rewrite F1|exact Hn|].
      exists st2, live2. repeat split; auto. now rewrite Ht2.
Qed.

End WithEnvironment.

Lemma init_consistent : consistent __init__ false.
Proof. reflexivity. Qed.

(** C5 holds of the code as long as every operation runs from its call to
    its return, and fails when a [logout] is overlapped.  Through any
    calls of [_ensure_live] and [logout] and turns of the keep-alive tasks,
    each run as a whole, a keep-alive task is running exactly when the
    session has completed a successful auth check and has not been logged
    out since: then the event loop has one running task, the one the
    adapter's handle refers to, and otherwise none; [logout] returns, and
    after it the cached status and the time stamp are [None] and no task
    is running (the handle is kept).  But [logout] takes no lock: against
    a gateway reporting an authenticated session, an [_ensure_live] that
    runs while [logout] is suspended in its [_post] finds the task
    cancelled and starts a new one, and when [logout] has returned the
    cache and the time stamp are [None] while that task is running. *)
Theorem keep_alive_task_iff_live_unless_logout_is_overlapped :
  (forall (env : environment) (depth : nat) (acts : list action),
      forallb whole acts = true ->
      match run env depth acts __init__ false with
      | None => False
      | Some (st, live) =>
          keep_alive_running st = live
          /\ running_tasks st = (if live then 1 else 0)%nat
          /\ forall point,
               match logout env point st with
               | None => False
               | Some st' =>
                   _session_status (self st') = None
                   /\ _last_auth_check (self st') = None
                   /\ keep_alive_running st' = false
                   /\ running_tasks st' = 0%nat
               end
      end)
  /\ (let after acts := run Scenario.authenticated 3 acts __init__ false in
      let seen (r : state * bool) :=
        (tasks (fst r), _keep_alive_task (self (fst r)), snd r) in
      option_map seen (after [EnsureLive 0]) = Some ([Running], Some 0%nat, true)
      /\ option_map seen (after [EnsureLive 0; Logout DuringSleep])
         = Some ([Done], Some 0%nat, false)
      /\ option_map seen (after [EnsureLive 0; Logout DuringSleep; EnsureLive 1])
         = Some ([Done; Running], Some 1%nat, true))
  /\ (let overlapped :=
        run Scenario.authenticated 3
            [EnsureLive 0; BeginLogout DuringSleep; EnsureLive 400; EndLogout]
            __init__ false in
      option_map (fun r => (tasks (fst r), _keep_alive_task (self (fst r)), snd r))
                 overlapped
      = Some ([Done; Running], Some 1%nat, false)
      /\ option_map (fun r => (_session_status (self (fst r)),
                               _last_auth_check (self (fst r)),
                               keep_alive_running (fst r), running_tasks (fst r)))
                    overlapped
         = Some (None, None, true, 1%nat)).
Proof.
  split; [|split].
  - intros env depth acts Hw.
    destruct (run_consistent env depth acts __init__ false Hw init_consistent)
      as (st & live & -> & Hc).
    destruct (consistent_running st live Hc) as [Hk Hn].
    repeat split; auto. intros point.
    destruct (logout_spec env point st live Hc) as (st' & -> & Hd & Hs & Hl & _).
    destruct (consistent_running st' false Hd) as [Hk' Hn'].
    repeat split; auto.
  - vm_compute. repeat split.
  - vm_compute. repeat split.
Qed.

(** C6 holds of the code as long as every operation runs from its call to
    its return, and fails when a [logout] is overlapped.  [logout] cancels
    the adapter's keep-alive task, wherever the cancellation finds it, and
    goes on only when the task has finished; when it has returned no task
    is running, so that in whatever way the event loop then schedules the
    tasks, and however often [logout] is called again, no request to
    [/tickle] is sent any more, as long as no later [_ensure_live] starts a
    new task.  In the loop a ping that comes back never ends the
    iteration, whatever its outcome, and a cancellation always does,
    without an error: the loop has finished exactly when one of its passes
    was cancelled.  But an [_ensure_live] that runs while [logout] is
    suspended in its [_post] starts a task that [logout] knows nothing of:
    after [logout] has returned that task is running, and its next turn
    sends a ping. *)
Theorem no_ping_after_logout_unless_logout_is_overlapped :
  (forall (env : environment) (depth : nat) (acts later : list action)
          (point : cancellation),
      forallb whole acts = true ->
      forallb no_check later = true ->
      match run env depth acts __init__ false with
      | None => False
      | Some (st, _) =>
          match logout env point st with
          | None => False
          | Some st1 =>
              running_tasks st1 = 0%nat
              /\ (point = DuringSleep ->
                  attempts_to tickle_path (events st1)
                  = attempts_to tickle_path (events st))
              /\ match run env depth later st1 false with
                 | None => False
                 | Some (st2, _) =>
                     attempts_to tickle_path (events st2)
                     = attempts_to tickle_path (events st1)
                 end
          end
      end)
  /\ (forall (env : environment) (point : cancellation) (st : state),
        fst (keep_alive_iteration env Resumed st) = NextIteration
        /\ fst (keep_alive_iteration env (Cancelled point) st) = Break)
  /\ (forall (env : environment) (rs : list resumption) (st : state),
        fst (_keep_alive_loop env rs st)
        = if existsb is_cancelled rs then Done else Running)
  /\ (let env := Scenario.authenticated in
      match run env 3 [EnsureLive 0; BeginLogout DuringSleep; EnsureLive 400; EndLogout]
                __init__ false with
      | None => False
      | Some (st, live) =>
          live = false
          /\ keep_alive_running st = true
          /\ attempts_to tickle_path (events st) = 0%nat
          /\ option_map (fun r => attempts_to tickle_path (events (fst r)))
                        (run env 3 [Wake 1%nat] st live)
             = Some 1%nat
      end).
Proof.
  split; [|split; [|split]].
  - intros env depth acts later point Hw Hn.
    destruct (run_consistent env depth acts __init__ false Hw init_consistent)
      as (st & live & -> & Hc).
    destruct (logout_spec env point st live Hc) as (st1 & -> & Hd & _ & _ & _ & Ht).
    destruct (consistent_running st1 false Hd) as [_ Hr].
    split; [exact Hr|]. split; [intros Hp; apply Ht; now right|].
    destruct (quiet_without_checks env depth later st1 false Hd Hn)
      as (st2 & live2 & -> & _ & Ht2).
    exact Ht2.
  - intros env point st.
    destruct (keep_alive_iteration_spec env st) as [(st1 & -> & _) _].
    destruct (keep_alive_iteration_cancelled env point st) as (st2 & -> & _).
    now split.
  - intros env. induction rs as [|[|point] rs IH]; intros st;
      cbn [_keep_alive_loop existsb is_cancelled orb].
    + reflexivity.
    + destruct (keep_alive_iteration_spec env st) as [(st1 & -> & _) _]. apply IH.
    + now destruct (keep_alive_iteration_cancelled env point st) as (st2 & -> & _).
  - vm_compute. repeat split.
Qed.

End SequentialFacts.


(** ** Concurrent callers: single flight *)

Module ConcurrentFacts.
Import Session Concurrent Trace TraceFacts Classify HttpFacts SessionFacts.

Lemma nth_error_replace_nth {A} (l : list A) (i j : nat) (x c : A) :
  nth_error (replace_nth i x l) j = Some c ->
  (j = i /\ c = x) \/ (j <> i /\ nth_error l j = Some c).
Proof.
  revert i j. induction l as [|y l IH]; intros i j; [destruct i, j; discriminate|].
  destruct i as [|i], j as [|j]; cbn.
  - intros [= <-]. now left.
  - intros H. right. now split.
  - intros H. right. now split.
  - intros H. destruct (IH i j H) as [[-> ->]|[Hn Hc]]; [now left|right].
    split; [lia|exact Hc].
Qed.

Lemma nth_error_repeat {A} (x c : A) (n j : nat) :
  nth_error (repeat x n) j = Some c -> c = x.
Proof.
  revert j. induction n as [|n IH]; intros [|j]; cbn; try discriminate.
  - now intros [= <-].
  - apply IH.
Qed.

Lemma length_replace_nth {A} (l : list A) (i : nat) (x : A) :
  List.length (replace_nth i x l) = List.length l.
Proof.
  revert i. induction l as [|y l IH]; intros [|i]; cbn; auto.
Qed.

Lemma within_spec (interval : Q) (cts : list Q) (a b : Q) :
  within interval cts = true -> In a cts -> In b cts ->
  Qle_bool (b - a) interval = true.
Proof.
  unfold within. intros H Ha Hb.
  rewrite forallb_forall in H. specialize (H a Ha).
  rewrite forallb_forall in H. exact (H b Hb).
Qed.

Section SingleFlight.
Variable env : environment.
Variable depth : nat.
Variable n : nat.
Variable cts : list Q.
Hypothesis answer :
  reports_authenticated (env [] "POST" auth_status_path) = true.
Hypothesis close_readings : within 300 cts = true.

(** The one check that is made succeeds with a single request. *)
Lemma first_check :
  exists v st1,
    _check_auth_status env depth (set_session_lock true __init__) = (Ok v, st1)
    /\ events st1 = [Attempt "POST" auth_status_path 0 (env [] "POST" auth_status_path)]
    /\ _last_auth_check (self st1) = None
    /\ _auth_check_interval (self st1) = 300%Q.
Proof.
  unfold reports_authenticated in answer.
  destruct (env [] "POST" auth_status_path) as [r| |] eqn:Er; try discriminate.
  apply andb_true_iff in answer. destruct answer as [Hs Hp].
  destruct (payload_of r) as [v|] eqn:Ev; [|discriminate].
  destruct (get_authenticated v) as [b|] eqn:Eg; [|discriminate]. subst b.
  unfold _check_auth_status. rewrite check_auth_status_rec_eq.
  unfold check_try_block. cbn [events set_session_lock with_self __init__].
  rewrite (post_success env auth_status_path [] r v Er Hs Ev), Eg.
  cbn. eexists. eexists. split; [reflexivity|]. cbn. now repeat split.
Qed.

Lemma step_phase (m : move) (sys sys' : system) :
  phase n cts sys ->
  (forall ct, In ct (readings [m]) -> In ct cts) ->
  step env depth m sys = Some sys' ->
  phase n cts sys'.
Proof.
  intros Hph Hin Hstep. destruct Hph as [->|i ct Hsh Hi Hct Hothers|ct out Hct Hev Hlast Hint Hlock Hall].
  - (* nobody has the lock *)
    destruct m as [j ct'|j]; cbn [step start shared callers] in Hstep.
    + destruct (nth_error (repeat Queued n) j) as [[| |]|] eqn:Ej; try discriminate.
      cbn in Hstep. injection Hstep as <-.
      apply (InFlight _ _ _ j ct'); cbn [shared callers].
      * reflexivity.
      * clear Hin. revert j Ej. induction n as [|k IH]; intros [|j]; cbn; try discriminate; auto.
      * apply Hin. now left.
      * intros j' c Hc Hne. apply nth_error_replace_nth in Hc.
        destruct Hc as [[? _]|[_ Hc]]; [contradiction|].
        now apply nth_error_repeat in Hc.
    + destruct (nth_error (repeat Queued n) j) as [c|] eqn:Ej; [|discriminate].
      apply nth_error_repeat in Ej. subst c. discriminate.
  - (* a check is in flight *)
    destruct m as [j ct'|j]; cbn [step] in Hstep.
    + rewrite Hsh in Hstep. cbn in Hstep.
      destruct (nth_error (callers sys) j) as [[| |]|]; discriminate.
    + destruct (nth_error (callers sys) j) as [[|ct'|]|] eqn:Ej; try discriminate.
      assert (j = i).
      { destruct (Nat.eq_dec j i) as [|Hne]; [assumption|].
        specialize (Hothers j _ Ej Hne). discriminate. }
      subst j. rewrite Hi in Ej. injection Ej as <-.
      rewrite Hsh in Hstep.
      destruct first_check as (v & st1 & Hck & Hev & Hlast & Hint).
      rewrite Hck in Hstep. injection Hstep as <-.
      apply (Fresh _ _ _ ct (env [] "POST" auth_status_path)); cbn [shared callers]; auto.
      intros j c Hc. apply nth_error_replace_nth in Hc.
      destruct Hc as [[_ ->]|[Hne Hc]]; [now right|left].
      now apply (Hothers j).
  - (* the check is over *)
    destruct m as [j ct'|j]; cbn [step] in Hstep.
    + destruct (nth_error (callers sys) j) as [[| |]|] eqn:Ej; try discriminate.
      rewrite Hlock in Hstep.
      assert (Hfresh : stale ct' (set_session_lock true (shared sys)) = false).
      { unfold stale. cbn. rewrite Hlast, Hint.
        rewrite (within_spec 300 cts ct ct' close_readings Hct); [reflexivity|].
        apply Hin. now left. }
      rewrite Hfresh in Hstep. injection Hstep as <-.
      apply (Fresh _ _ _ ct out); cbn [shared callers]; auto.
      intros j' c Hc. apply nth_error_replace_nth in Hc.
      destruct Hc as [[_ ->]|[_ Hc]]; [now right|]. now apply (Hall j').
    + destruct (nth_error (callers sys) j) as [[| |]|] eqn:Ej; try discriminate.
      destruct (Hall j _ Ej); discriminate.
Qed.

Lemma run_phase :
  forall (schedule : list move) (sys sys' : system),
    phase n cts sys ->
    (forall ct, In ct (readings schedule) -> In ct cts) ->
    run env depth schedule sys = Some sys' ->
    phase n cts sys'.
Proof.
  induction schedule as [|m schedule IH]; intros sys sys' Hph Hin Hrun.
  - cbn in Hrun. now injection Hrun as <-.
  - cbn [run] in Hrun. destruct (step env depth m sys) as [sys1|] eqn:Es; [|discriminate].
    apply (IH sys1 sys'); [| |exact Hrun].
    + apply (step_phase m sys sys1 Hph); [|exact Es].
      intros ct Hct. apply Hin. destruct m; cbn in *; [|contradiction].
      destruct Hct as [<-|[]]. now left.
    + intros ct Hct. apply Hin. destruct m; cbn; [now right|exact Hct].
Qed.

End SingleFlight.

Lemma step_length env depth (m : move) (sys sys' : system) :
  step env depth m sys = Some sys' ->
  List.length (callers sys') = List.length (callers sys).
Proof.
  destruct m as [j ct|j]; cbn [step].
  - destruct (nth_error (callers sys) j) as [[| |]|]; try discriminate.
    destruct (_session_lock _); [discriminate|].
    destruct (stale _ _); intros [= <-]; apply length_replace_nth.
  - destruct (nth_error (callers sys) j) as [[| |]|]; try discriminate.
    destruct (_check_auth_status _ _ _) as [[v|e] st1]; intros [= <-];
      apply length_replace_nth.
Qed.

Lemma run_length env depth :
  forall (schedule : list move) (sys sys' : system),
    run env depth schedule sys = Some sys' ->
    List.length (callers sys') = List.length (callers sys).
Proof.
  induction schedule as [|m schedule IH]; intros sys sys' Hrun; cbn [run] in Hrun.
  - now injection Hrun as <-.
  - destruct (step env depth m sys) as [sys1|] eqn:Es; [|discriminate].
    rewrite (IH _ _ Hrun). now apply step_length in Es.
Qed.

(** A caller that is alone goes through the two moves and ends where
    [_ensure_live] ends. *)
Lemma alone_is_ensure_live env depth (ct : Q) (st : state) :
  _session_lock (self st) = false ->
  run env depth
      (if stale ct st then [Acquire 0 ct; Finish 0] else [Acquire 0 ct])
      (mkSystem st [Queued])
  = Some (mkSystem (snd (_ensure_live env depth ct st))
                   [Returned (fst (_ensure_live env depth ct st))]).
Proof.
  intros Hlock. unfold _ensure_live.
  change (stale ct (set_session_lock true st)) with (stale ct st).
  destruct (stale ct st) eqn:Hst; cbn [run step callers shared nth_error].
  - rewrite Hlock.
    change (stale ct (set_session_lock true st)) with (stale ct st). rewrite Hst.
    cbn [run step callers shared nth_error replace_nth].
    destruct (_check_auth_status env depth (set_session_lock true st)) as [[v|e] st1];
      reflexivity.
  - rewrite Hlock.
    change (stale ct (set_session_lock true st)) with (stale ct st). rewrite Hst.
    reflexivity.
Qed.

(** C2: [n] callers of [_ensure_live] arrive at a fresh adapter before any
    check has started; the gateway answers the status check by reporting an
    authenticated session, and no two clock readings are more than the
    check interval (300 s) apart.  Then, in whatever order the scheduler
    lets the callers take the lock and completes the check, once all of
    them have returned exactly one request has been sent, the one to the
    auth-status endpoint, and every caller has returned normally: the
    callers that waited for the lock found the cache fresh and did nothing
    more. *)
Theorem single_flight :
  forall (env : environment) (depth n : nat) (schedule : list move) (sys' : system),
    (1 <= n)%nat ->
    reports_authenticated (env [] "POST" auth_status_path) = true ->
    within 300 (readings schedule) = true ->
    run env depth schedule (start n) = Some sys' ->
    forallb has_returned (callers sys') = true ->
    attempts_to auth_status_path (events (shared sys')) = 1%nat
    /\ attempts (events (shared sys')) = 1%nat
    /\ forallb returned_ok (callers sys') = true
    /\ List.length (callers sys') = n.
Proof.
  intros env depth n schedule sys' Hn Henv Hcts Hrun Hret.
  assert (Hlen : List.length (callers sys') = n).
  { rewrite (run_length _ _ _ _ _ Hrun). cbn. apply repeat_length. }
  pose proof (run_phase env depth n (readings schedule) Henv Hcts
                        schedule (start n) sys' (Idle _ _ _ eq_refl)
                        (fun ct H => H) Hrun) as Hph.
  rewrite forallb_forall in Hret.
  destruct Hph as [->|i ct _ Hi _ _|ct out _ Hev _ _ _ Hall].
  - exfalso. destruct n as [|k]; [lia|].
    specialize (Hret Queued (or_introl eq_refl)). discriminate.
  - exfalso. apply nth_error_In in Hi. specialize (Hret _ Hi). discriminate.
  - rewrite Hev. repeat split; auto.
    apply forallb_forall. intros c Hc.
    destruct (In_nth_error _ _ Hc) as [j Hj].
    destruct (Hall j c Hj) as [->| ->]; [|reflexivity].
    specialize (Hret _ Hc). discriminate.
Qed.

Lemma single_flight_witness :
  let schedule :=
    [Acquire 3 1000; Finish 3; Acquire 0 1001; Acquire 9 1001; Acquire 1 1002;
     Acquire 2 1002; Acquire 4 1003; Acquire 5 1003; Acquire 6 1004;
     Acquire 8 1004; Acquire 7 1005] in
  match run Scenario.authenticated 3 schedule (start 10) with
  | None => False
  | Some sys' =>
      forallb has_returned (callers sys') = true
      /\ attempts_to auth_status_path (events (shared sys')) = 1%nat
      /\ attempts (events (shared sys')) = 1%nat
      /\ forallb returned_ok (callers sys') = true
      /\ List.length (callers sys') = 10%nat
  end.
Proof.
  cbn zeta.
  destruct (run Scenario.authenticated 3
              [Acquire 3 1000; Finish 3; Acquire 0 1001; Acquire 9 1001; Acquire 1 1002;
               Acquire 2 1002; Acquire 4 1003; Acquire 5 1003; Acquire 6 1004;
               Acquire 8 1004; Acquire 7 1005] (start 10)) as [sys'|] eqn:E;
    [|vm_compute in E; discriminate E].
  assert (Hret : forallb has_returned (callers sys') = true).
  { vm_compute in E. injection E as <-. reflexivity. }
  split; [exact Hret|].
  apply (single_flight Scenario.authenticated 3 10
           [Acquire 3 1000; Finish 3; Acquire 0 1001; Acquire 9 1001; Acquire 1 1002;
            Acquire 2 1002; Acquire 4 1003; Acquire 5 1003; Acquire 6 1004;
            Acquire 8 1004; Acquire 7 1005] sys');
    [lia|reflexivity|reflexivity|exact E|exact Hret].
Defined.

End ConcurrentFacts.


(** ** The transport: further properties *)

Module TransportFacts.
Import Http Verbs Trace TraceFacts Classify HttpFacts.

Section Loop.
Variable env : environment.
Variables (method path : string) (max_retries : Z) (retry_delay : Q).

(** The pass that ends the loop is the one of the last request, and that
    request is the last event. *)
Lemma retry_loop_last :
  forall remaining k t,
    Z.of_nat (S remaining) = max_retries + 1 - k ->
    exists delta k',
      let t' := t ++ delta in
      snd (retry_loop env method path max_retries retry_delay (S remaining) k t)
      = t' ++ [Attempt method path k' (env t' method path)]
      /\ Forall (own method path) delta
      /\ k <= k' <= max_retries
      /\ outcome_of_pass (loop_body max_retries retry_delay k' (env t' method path))
         = Some (fst (retry_loop env method path max_retries retry_delay
                                 (S remaining) k t)).
Proof.
  induction remaining as [|rem IH]; intros k t Hinv; rewrite retry_loop_S.
  - destruct (loop_body max_retries retry_delay k (env t method path)) as [v|e|x] eqn:E.
    + exists [], k. cbn zeta. rewrite app_nil_r, E. repeat split; auto; lia.
    + exists [], k. cbn zeta. rewrite app_nil_r, E. repeat split; auto; lia.
    + apply loop_body_continue in E. lia.
  - destruct (loop_body max_retries retry_delay k (env t method path)) as [v|e|x] eqn:E.
    + exists [], k. cbn zeta. rewrite app_nil_r, E. repeat split; auto; lia.
    + exists [], k. cbn zeta. rewrite app_nil_r, E. repeat split; auto; lia.
    + apply loop_body_continue in E. destruct E as [-> Hk].
      destruct (IH (k + 1)
                   ((t ++ [Attempt method path k (env t method path)])
                      ++ [Sleep (backoff retry_delay k)]))
        as (delta & k' & Hsnd & Hown & Hk' & Hout); [lia|].
      exists (Attempt method path k (env t method path)
                :: Sleep (backoff retry_delay k) :: delta), k'.
      cbv zeta in *.
      replace (t ++ Attempt method path k (env t method path)
                 :: Sleep (backoff retry_delay k) :: delta)
        with (((t ++ [Attempt method path k (env t method path)])
                 ++ [Sleep (backoff retry_delay k)]) ++ delta)
        by (rewrite <- !app_assoc; reflexivity).
      repeat split; auto; try lia.
      repeat constructor; auto.
Qed.

End Loop.

Lemma loop_body_return mr d k out v :
  loop_body mr d k out = Return v ->
  exists r, out = Responded r /\ is_success r = true /\ payload_of r = Some v.
Proof.
  unfold loop_body, try_block, handlers, raise_for_status, payload_of.
  destruct out as [r|m|m].
  - destruct (status_code r =? 401).
    { cbn. rewrite andb_false_r. discriminate. }
    destruct (status_code r =? 403).
    { cbn. rewrite andb_false_r. discriminate. }
    destruct (500 <=? status_code r); cbn [andb].
    + destruct (k <? mr).
      * unfold sleep_and_continue, overflow_error.
        destruct (float_overflow_attempt <=? k); [|discriminate].
        destruct (PyStr.contains _ _); discriminate.
      * cbn. discriminate.
    + destruct (is_success r) eqn:Es.
      * destruct (PyStr.is_empty (content r)) eqn:Ee.
        { intros [= <-]. exists r. rewrite Es, Ee. now repeat split. }
        destruct (json_body r) as [m|w] eqn:Ej.
        { destruct (k <? mr); cbn [andb]; [destruct (PyStr.contains _ _)|];
            try (unfold sleep_and_continue; destruct (float_overflow_attempt <=? k));
            discriminate. }
        intros [= <-]. exists r. rewrite Es, Ee, Ej. now repeat split.
      * destruct (k <? mr); cbn [andb]; [destruct (PyStr.contains _ _)|];
          try (unfold sleep_and_continue; destruct (float_overflow_attempt <=? k));
          discriminate.
  - destruct (k <? mr);
      try (unfold sleep_and_continue; destruct (float_overflow_attempt <=? k));
      discriminate.
  - destruct (k <? mr); cbn [andb]; [destruct (PyStr.contains _ _)|];
      try (unfold sleep_and_continue; destruct (float_overflow_attempt <=? k));
      discriminate.
Qed.

Lemma loop_body_raise_not_max mr d k out e :
  loop_body mr d k out = Raise e -> is_max_retries_error e = false.
Proof.
  unfold loop_body, try_block, handlers, raise_for_status.
  destruct out as [r|m|m].
  - destruct (status_code r =? 401).
    { cbn. rewrite andb_false_r. now intros [= <-]. }
    destruct (status_code r =? 403).
    { cbn. rewrite andb_false_r. now intros [= <-]. }
    destruct (500 <=? status_code r); cbn [andb].
    + destruct (k <? mr).
      * unfold sleep_and_continue, overflow_error.
        destruct (float_overflow_attempt <=? k); [|discriminate].
        destruct (PyStr.contains _ _); now intros [= <-].
      * cbn. now intros [= <-].
    + destruct (is_success r).
      * destruct (PyStr.is_empty (content r)); [discriminate|].
        destruct (json_body r) as [m|w]; [|discriminate].
        destruct (k <? mr); cbn [andb]; [destruct (PyStr.contains _ _)|];
          try (unfold sleep_and_continue, overflow_error;
               destruct (float_overflow_attempt <=? k));
          try discriminate; now intros [= <-].
      * destruct (k <? mr); cbn [andb]; [destruct (PyStr.contains _ _)|];
          try (unfold sleep_and_continue, overflow_error;
               destruct (float_overflow_attempt <=? k));
          try discriminate; now intros [= <-].
  - destruct (k <? mr);
      try (unfold sleep_and_continue, overflow_error;
           destruct (float_overflow_attempt <=? k));
      try discriminate; now intros [= <-].
  - destruct (k <? mr); cbn [andb]; [destruct (PyStr.contains _ _)|];
      try (unfold sleep_and_continue, overflow_error;
           destruct (float_overflow_attempt <=? k));
      try discriminate; now intros [= <-].
Qed.





(** X2: a call returns a value only when its last request was answered
    with a 2xx status; the value is then the parsed body of that response,
    or the empty map when the body is empty. *)
Theorem value_comes_from_a_2xx_response :
  forall (env : environment) (method path : string) (max_retries : Z)
         (retry_delay : Q) (t : trace) (v : json),
    fst (_request_with_retry env method path max_retries retry_delay t) = Ok v ->
    exists t' k r,
      snd (_request_with_retry env method path max_retries retry_delay t)
      = t' ++ [Attempt method path k (Responded r)]
      /\ is_success r = true
      /\ payload_of r = Some v.
Proof.
  intros env method path mr d t v Hok. unfold _request_with_retry in *.
  destruct (Z.to_nat (mr + 1)) as [|rem] eqn:E; [discriminate|].
  destruct (retry_loop_last env method path mr d rem 0 t)
    as (delta & k & Hsnd & _ & _ & Hout); [lia|].
  cbv zeta in *. rewrite Hok in Hout.
  destruct (loop_body mr d k (env (t ++ delta) method path)) as [w|e|x] eqn:Eb;
    try discriminate.
  injection Hout as ->.
  destruct (loop_body_return _ _ _ _ _ Eb) as (r & Hr & Hs & Hp).
  exists (t ++ delta), k, r. rewrite Hsnd, Hr. now repeat split.
Qed.

Lemma value_comes_from_a_2xx_response_witness :
  let out := _request_with_retry Scenario.two_failures_then_ok
                                 "GET" "/portfolio/accounts" 3 1 [] in
  exists t' k r,
    snd out = t' ++ [Attempt "GET" "/portfolio/accounts" k (Responded r)]
    /\ is_success r = true
    /\ payload_of r = Some (JObject [("ok", JBool true)]).
Proof.
  apply (value_comes_from_a_2xx_response Scenario.two_failures_then_ok
           "GET" "/portfolio/accounts" 3 1 [] (JObject [("ok", JBool true)])).
  reflexivity.
Defined.

(** X3: with a non-negative [max_retries] a call adds to the trace only
    requests with its own method and path and the sleeps between them; the
    last thing it adds is a request, and the pass of that request decides
    the outcome.  So the [raise] after the loop is never reached: the error
    it would raise is the outcome exactly when [max_retries] is
    negative. *)
Theorem call_is_decided_by_its_last_request :
  forall (env : environment) (method path : string) (max_retries : Z)
         (retry_delay : Q) (t : trace),
    let out := _request_with_retry env method path max_retries retry_delay t in
    (0 <= max_retries ->
     exists delta k,
       let t' := t ++ delta in
       snd out = t' ++ [Attempt method path k (env t' method path)]
       /\ Forall (own method path) delta
       /\ 0 <= k <= max_retries
       /\ outcome_of_pass (loop_body max_retries retry_delay k (env t' method path))
          = Some (fst out))
    /\ (match fst out with
        | Err e => is_max_retries_error e
        | Ok _ => false
        end = (max_retries <? 0)).
Proof.
  intros env method path mr d t. cbn zeta. split.
  - intros Hmr. unfold _request_with_retry.
    destruct (Z.to_nat (mr + 1)) as [|rem] eqn:E; [lia|].
    apply retry_loop_last. lia.
  - destruct (Z.ltb_spec mr 0) as [Hneg|Hpos].
    + rewrite negative_max_retries_sends_nothing by assumption. reflexivity.
    + unfold _request_with_retry.
      destruct (Z.to_nat (mr + 1)) as [|rem] eqn:E; [lia|].
      destruct (retry_loop_last env method path mr d rem 0 t)
        as (delta & k & _ & _ & _ & Hout); [lia|].
      cbv zeta in Hout.
      match goal with |- context [fst ?x] => set (res := fst x) in * end.
      destruct (loop_body mr d k (env (t ++ delta) method path)) as [w|e|x] eqn:Eb;
        cbn [outcome_of_pass] in Hout; try discriminate;
        injection Hout as Hout; rewrite <- Hout; [reflexivity|].
      now apply loop_body_raise_not_max in Eb.
Qed.

Lemma call_is_decided_by_its_last_request_witness :
  let env := Scenario.two_failures_then_ok in
  let out := Verbs._delete env "/iserver/account/U1/order/7" [] in
  exists delta k,
    let t' := [] ++ delta in
    snd out = t' ++ [Attempt "DELETE" "/iserver/account/U1/order/7" k
                             (env t' "DELETE" "/iserver/account/U1/order/7")]
    /\ Forall (own "DELETE" "/iserver/account/U1/order/7") delta
    /\ 0 <= k <= 3
    /\ outcome_of_pass
         (loop_body 3 1 k (env t' "DELETE" "/iserver/account/U1/order/7"))
       = Some (fst out).
Proof.
  cbn zeta.
  destruct (call_is_decided_by_its_last_request Scenario.two_failures_then_ok
              "DELETE" "/iserver/account/U1/order/7" 3 1 []) as [H _].
  apply H. lia.
Defined.



Lemma total_app (a b : list Q) : (total (a ++ b) == total a + total b)%Q.
Proof.
  unfold total. induction a as [|x a IH]; cbn [app fold_right].
  - ring.
  - rewrite IH. ring.
Qed.

(** The backoff sleeps before passes 1 .. [m] add up to
    [retry_delay * (2 ^ m - 1)]. *)
Lemma total_backoff (d : Q) (m : nat) :
  (total (map (fun i => backoff d (Z.of_nat i)) (seq 0 m))
   == d * (inject_Z (2 ^ Z.of_nat m) - 1))%Q.
Proof.
  induction m as [|m IH].
  - cbn. ring.
  - rewrite seq_S, map_app, total_app, IH. cbn [map total fold_right Nat.add].
    unfold backoff, backoff_multiplier.
    rewrite Nat2Z.inj_succ, Z.pow_succ_r by lia.
    rewrite inject_Z_mult. change (inject_Z 2) with 2%Q. ring.
Qed.

(** X5: with a non-negative [max_retries], a call that sent [n] requests
    has slept [retry_delay * (2 ^ (n - 1) - 1)] in total between them; for
    a non-negative [retry_delay] that is at most
    [retry_delay * (2 ^ max_retries - 1)], hence at most 7 s for [_get],
    [_post] and [_delete]. *)
Theorem total_backoff_is_bounded :
  (forall (env : environment) (method path : string) (max_retries : Z)
          (retry_delay : Q) (t : trace),
      0 <= max_retries ->
      (0 <= retry_delay)%Q ->
      let out := _request_with_retry env method path max_retries retry_delay t in
      let n := (attempts (snd out) - attempts t)%nat in
      (total (sleeps (snd out))
       == total (sleeps t) + retry_delay * (inject_Z (2 ^ Z.of_nat (n - 1)) - 1))%Q
      /\ (total (sleeps (snd out))
          <= total (sleeps t) + retry_delay * (inject_Z (2 ^ max_retries) - 1))%Q)
  /\ (forall (env : environment) (path : string) (t : trace),
        (total (sleeps (snd (_get env path t))) <= total (sleeps t) + 7)%Q
        /\ (total (sleeps (snd (_post env path t))) <= total (sleeps t) + 7)%Q
        /\ (total (sleeps (snd (_delete env path t))) <= total (sleeps t) + 7)%Q).
Proof.
  assert (Hgen : forall (env : environment) (method path : string) (max_retries : Z)
          (retry_delay : Q) (t : trace),
      0 <= max_retries ->
      (0 <= retry_delay)%Q ->
      let out := _request_with_retry env method path max_retries retry_delay t in
      let n := (attempts (snd out) - attempts t)%nat in
      (total (sleeps (snd out))
       == total (sleeps t) + retry_delay * (inject_Z (2 ^ Z.of_nat (n - 1)) - 1))%Q
      /\ (total (sleeps (snd out))
          <= total (sleeps t) + retry_delay * (inject_Z (2 ^ max_retries) - 1))%Q).
  { intros env method path mr d t Hmr Hd. cbv zeta. unfold _request_with_retry.
    destruct (retry_loop_delta env method path mr d (Z.to_nat (mr + 1)) 0 t)
      as (delta & n & Hsnd & _ & Hle & _ & Hnum & Hsl); [right; lia|].
    rewrite Hsnd, attempts_app, sleeps_app, Hsl.
    assert (Hlen : attempts delta = n).
    { now rewrite attempts_numbers, Hnum, length_map, length_seq. }
    replace (attempts t + attempts delta - attempts t)%nat with n by lia.
    assert (Heq : (total (sleeps t ++ map (fun i => backoff d (0 + Z.of_nat i)) (seq 0 (n - 1)))
                   == total (sleeps t) + d * (inject_Z (2 ^ Z.of_nat (n - 1)) - 1))%Q).
    { rewrite total_app. apply Qplus_comp; [reflexivity|].
      rewrite <- total_backoff.
      replace (map (fun i => backoff d (0 + Z.of_nat i)) (seq 0 (n - 1)))
        with (map (fun i => backoff d (Z.of_nat i)) (seq 0 (n - 1)))
        by (apply map_ext; intros i; f_equal).
      reflexivity. }
    split; [exact Heq|]. rewrite Heq.
    apply Qplus_le_r. rewrite !(Qmult_comm d).
    apply Qmult_le_compat_r; [|exact Hd].
    unfold Qminus. apply Qplus_le_l. rewrite <- Zle_Qle.
    apply Z.pow_le_mono_r; lia. }
  split; [exact Hgen|].
  intros env path t. unfold _get, _post, _delete.
  repeat split.
  - destruct (Hgen env "GET" path 3 1%Q t) as [_ H]; [lia|discriminate|].
    cbv zeta in H. exact H.
  - destruct (Hgen env "POST" path 3 1%Q t) as [_ H]; [lia|discriminate|].
    cbv zeta in H. exact H.
  - destruct (Hgen env "DELETE" path 3 1%Q t) as [_ H]; [lia|discriminate|].
    cbv zeta in H. exact H.
Qed.

Lemma total_backoff_is_bounded_witness :
  let out := _request_with_retry (Scenario.always (Scenario.failed 503 "Server error"))
                                 "GET" "/portfolio/accounts" 3 (1 # 2) [] in
  (total (sleeps (snd out)) == 7 # 2)%Q.
Proof.
  cbn zeta.
  destruct total_backoff_is_bounded as [H _].
  destruct (H (Scenario.always (Scenario.failed 503 "Server error"))
              "GET" "/portfolio/accounts" 3 (1 # 2) []) as [Heq _];
    [lia|discriminate|].
  cbv zeta in Heq. rewrite Heq. reflexivity.
Defined.

End TransportFacts.


(** ** The session: further properties *)

Module SessionMore.
Import Session Sequential Concurrent Watch Trace TraceFacts Classify HttpFacts.
Import SessionFacts SequentialFacts ConcurrentFacts.

Lemma checking_count_replace (cs : list caller) (i : nat) (c x : caller) :
  nth_error cs i = Some c ->
  (checking_count (replace_nth i x cs) + (if is_checking c then 1 else 0)
   = checking_count cs + (if is_checking x then 1 else 0))%nat.
Proof.
  unfold checking_count. revert i.
  induction cs as [|y cs IH]; intros [|i]; cbn [nth_error replace_nth]; try discriminate.
  - intros [= ->]. cbn [filter]. destruct (is_checking c), (is_checking x); cbn; lia.
  - intros H. specialize (IH i H). cbn [filter].
    destruct (is_checking y); cbn [List.length]; lia.
Qed.

Lemma moves_left_replace (cs : list caller) (i : nat) (c x : caller) :
  nth_error cs i = Some c ->
  (total_moves_left (replace_nth i x cs) + moves_left c
   = total_moves_left cs + moves_left x)%nat.
Proof.
  unfold total_moves_left. revert i.
  induction cs as [|y cs IH]; intros [|i]; cbn [nth_error replace_nth]; try discriminate.
  - intros [= ->]. cbn [fold_right]. lia.
  - intros H. specialize (IH i H). cbn [fold_right]. lia.
Qed.

Lemma checking_exists (cs : list caller) :
  checking_count cs <> 0%nat -> exists i ct, nth_error cs i = Some (Checking ct).
Proof.
  unfold checking_count. induction cs as [|c cs IH]; cbn [filter]; [now intros []|].
  destruct c as [|ct|r]; cbn [is_checking].
  - intros H. destruct (IH H) as (i & ct & Hi). now exists (S i), ct.
  - intros _. now exists 0%nat, ct.
  - intros H. destruct (IH H) as (i & ct & Hi). now exists (S i), ct.
Qed.

Section Exclusion.
Variable env : environment.
Variable depth : nat.

Lemma step_exclusive (m : move) (sys sys' : system) :
  exclusive sys -> step env depth m sys = Some sys' ->
  exclusive sys'
  /\ (total_moves_left (callers sys') < total_moves_left (callers sys))%nat.
Proof.
  unfold exclusive. intros Hex Hstep. destruct m as [j ct|j]; cbn [step] in Hstep.
  - destruct (nth_error (callers sys) j) as [[| |]|] eqn:Ej; try discriminate.
    destruct (_session_lock (self (shared sys))) eqn:El; [discriminate|].
    pose proof (checking_count_replace _ j _ (Checking ct) Ej) as Hc1.
    pose proof (checking_count_replace _ j _ (Returned (Ok tt)) Ej) as Hc2.
    pose proof (moves_left_replace _ j _ (Checking ct) Ej) as Hm1.
    pose proof (moves_left_replace _ j _ (Returned (Ok tt)) Ej) as Hm2.
    cbn [is_checking moves_left] in *.
    destruct (stale ct (set_session_lock true (shared sys)));
      injection Hstep as <-; cbn [callers shared]; cbn; split; lia.
  - destruct (nth_error (callers sys) j) as [[|ct|]|] eqn:Ej; try discriminate.
    pose proof (checking_count_replace _ j _ (Returned (Ok tt)) Ej) as Hc.
    pose proof (moves_left_replace _ j _ (Returned (Ok tt)) Ej) as Hm.
    destruct (_check_auth_status env depth (shared sys)) as [[v|e] st1].
    + injection Hstep as <-. cbn [callers shared]. cbn [is_checking moves_left] in *.
      cbn. destruct (_session_lock (self (shared sys))); split; lia.
    + pose proof (checking_count_replace _ j _ (Returned (Err e)) Ej) as Hc'.
      pose proof (moves_left_replace _ j _ (Returned (Err e)) Ej) as Hm'.
      injection Hstep as <-. cbn [callers shared]. cbn [is_checking moves_left] in *.
      cbn. destruct (_session_lock (self (shared sys))); split; lia.
Qed.

Lemma run_exclusive :
  forall (schedule : list move) (sys sys' : system),
    exclusive sys -> Concurrent.run env depth schedule sys = Some sys' ->
    exclusive sys'
    /\ (total_moves_left (callers sys') + List.length schedule
        <= total_moves_left (callers sys))%nat.
Proof.
  induction schedule as [|m schedule IH]; intros sys sys' Hex Hrun;
    cbn [Concurrent.run] in Hrun.
  - injection Hrun as <-. split; [exact Hex|]. cbn. lia.
  - destruct (step env depth m sys) as [sys1|] eqn:Es; [|discriminate].
    destruct (step_exclusive m sys sys1 Hex Es) as [Hex1 Hlt].
    destruct (IH sys1 sys' Hex1 Hrun) as [Hex' Hle].
    split; [exact Hex'|]. cbn [List.length]. lia.
Qed.

End Exclusion.

Lemma start_exclusive (n : nat) :
  exclusive (start n) /\ total_moves_left (callers (start n)) = (2 * n)%nat.
Proof.
  unfold exclusive, start, checking_count, total_moves_left. cbn [callers shared].
  split.
  - induction n as [|n IH]; [reflexivity|exact IH].
  - induction n as [|n IH]; [reflexivity|]. cbn [repeat fold_right moves_left].
    rewrite IH. lia.
Qed.

Lemma checking_member (cs : list caller) (ct : Q) :
  In (Checking ct) cs -> checking_count cs <> 0%nat.
Proof.
  unfold checking_count. induction cs as [|c cs IH]; [now intros []|].
  intros [->|H]; cbn [filter is_checking]; [discriminate|].
  destruct (is_checking c); [discriminate|now apply IH].
Qed.

Lemma not_all_returned (cs : list caller) :
  forallb has_returned cs = false ->
  exists c, In c cs /\ has_returned c = false.
Proof.
  induction cs as [|c cs IH]; cbn [forallb]; [discriminate|].
  destruct (has_returned c) eqn:E; cbn [andb].
  - intros H. destruct (IH H) as (c' & Hin & Hc). exists c'. split; [now right|exact Hc].
  - intros _. exists c. split; [now left|exact E].
Qed.

(** X6: among concurrent callers of [_ensure_live] at most one has its
    auth-status check in flight at any time, whatever the gateway answers
    and however the scheduler interleaves them; the lock is held exactly
    while that check is in flight. *)
Theorem one_check_at_a_time :
  forall (env : environment) (depth n : nat) (schedule : list move) (sys : system),
    Concurrent.run env depth schedule (start n) = Some sys ->
    (checking_count (callers sys) <= 1)%nat
    /\ (_session_lock (self (shared sys)) = true
        <-> checking_count (callers sys) = 1%nat).
Proof.
  intros env depth n schedule sys Hrun.
  destruct (start_exclusive n) as [Hex _].
  destruct (run_exclusive env depth schedule _ _ Hex Hrun) as [Hex' _].
  unfold exclusive in Hex'.
  destruct (_session_lock (self (shared sys))); rewrite Hex'; split; try lia;
    split; intros H; try reflexivity; discriminate H.
Qed.

Lemma one_check_at_a_time_witness :
  match Concurrent.run Scenario.not_logged_in 3
                       [Acquire 1 10; Finish 1; Acquire 0 11] (start 3) with
  | None => False
  | Some sys =>
      (checking_count (callers sys) <= 1)%nat
      /\ (_session_lock (self (shared sys)) = true
          <-> checking_count (callers sys) = 1%nat)
  end.
Proof.
  destruct (Concurrent.run Scenario.not_logged_in 3
                           [Acquire 1 10; Finish 1; Acquire 0 11] (start 3))
    as [sys|] eqn:E; [|vm_compute in E; discriminate E].
  exact (one_check_at_a_time Scenario.not_logged_in 3 3
                             [Acquire 1 10; Finish 1; Acquire 0 11] sys E).
Defined.

(** X7: concurrent callers of [_ensure_live] never get stuck and never
    loop: as long as some caller has not returned there is a move the
    scheduler can make, whatever the gateway answers (a check that raises
    releases the lock too), and no run of [n] callers makes more than
    [2 * n] moves. *)
Theorem callers_always_make_progress :
  forall (env : environment) (depth n : nat) (schedule : list move) (sys : system),
    Concurrent.run env depth schedule (start n) = Some sys ->
    (List.length schedule <= 2 * n)%nat
    /\ (forallb has_returned (callers sys) = false ->
        exists m sys', step env depth m sys = Some sys').
Proof.
  intros env depth n schedule sys Hrun.
  destruct (start_exclusive n) as [Hex Hmoves].
  destruct (run_exclusive env depth schedule _ _ Hex Hrun) as [Hex' Hle].
  split; [lia|]. intros Hsome. unfold exclusive in Hex'.
  destruct (_session_lock (self (shared sys))) eqn:El.
  - destruct (checking_exists (callers sys)) as (i & ct & Hi); [lia|].
    exists (Finish i). cbn [step]. rewrite Hi.
    destruct (_check_auth_status env depth (shared sys)) as [[v|e] st1]; eauto.
  - destruct (not_all_returned _ Hsome) as (c & Hin & Hc).
    destruct c as [|ct|r]; [| |discriminate].
    + destruct (In_nth_error _ _ Hin) as [i Hi].
      exists (Acquire i 0). cbn [step]. rewrite Hi, El.
      destruct (stale 0 (set_session_lock true (shared sys))); eauto.
    + exfalso. now apply (checking_member _ _ Hin).
Qed.

Lemma callers_always_make_progress_witness :
  match Concurrent.run Scenario.always_unauthorized 2
                       [Acquire 1 10; Finish 1] (start 2) with
  | None => False
  | Some sys =>
      (2 <= 2 * 2)%nat
      /\ exists m sys', step Scenario.always_unauthorized 2 m sys = Some sys'
  end.
Proof.
  destruct (Concurrent.run Scenario.always_unauthorized 2
                           [Acquire 1 10; Finish 1] (start 2))
    as [sys|] eqn:E; [|vm_compute in E; discriminate E].
  destruct (callers_always_make_progress Scenario.always_unauthorized 2 2
              [Acquire 1 10; Finish 1] sys E) as [Hlen Hmove].
  split; [exact Hlen|]. apply Hmove.
  vm_compute in E. injection E as <-. reflexivity.
Defined.

(** *** What the cache is worth *)

Lemma authenticated_is_truthy (v : json) :
  get_authenticated v = Ok true -> truthy v = true.
Proof.
  destruct v as [| | | | | |items]; cbn; try discriminate.
  destruct items; [cbn; discriminate|reflexivity].
Qed.

Section Trust.
Variable env : environment.
Variable depth : nat.

Lemma check_try_block_ok (st st' : state) (v : json) :
  check_try_block env st = (Ok v, st') ->
  _session_status (self st') = Some v /\ get_authenticated v = Ok true.
Proof.
  unfold check_try_block.
  destruct (Http._post env auth_status_path (events st)) as [[w|e] t1]; [|discriminate].
  destruct (get_authenticated w) as [[|]|e] eqn:Ew; try discriminate.
  intros [= <- <-]. split; [|exact Ew].
  cbn. destruct (_keep_alive_task (self st)) as [tid|]; [|reflexivity].
  destruct (done tid _); reflexivity.
Qed.

Lemma check_auth_status_ok :
  forall (d : nat) (st st' : state) (v : json),
    check_auth_status_rec env d st = (Ok v, st') ->
    _session_status (self st') = Some v /\ get_authenticated v = Ok true.
Proof.
  induction d as [|d IH]; intros st st' v; rewrite check_auth_status_rec_eq;
    destruct (check_try_block env st) as [[w|e] st1] eqn:Et.
  all: try (intros [= <- <-]; now apply (check_try_block_ok st)).
  all: destruct e as [m code| | | | |]; try discriminate.
  all: destruct (status_code_is 401 code); [|discriminate].
  all: destruct (_reauthenticate env st1) as [[u|e2] st2]; try discriminate.
  apply IH.
Qed.

Lemma trusted_later (now now' : Q) (st : state) :
  (now <= now')%Q -> trusted now st -> trusted now' st.
Proof.
  intros Hle [H|H]; [now left|right].
  now apply (stale_later now now' st).
Qed.

Lemma ensure_live_trusted (now ct : Q) (st : state) :
  trusted now st -> (now <= ct)%Q ->
  let out := _ensure_live env depth ct st in
  trusted ct (snd out)
  /\ (is_ok (fst out) = true -> cache_authenticated (snd out) = true).
Proof.
  intros Htr Hle. cbv zeta. unfold _ensure_live.
  change (stale ct (set_session_lock true st)) with (stale ct st).
  destruct (stale ct st) eqn:Hst.
  - unfold _check_auth_status.
    pose proof (check_auth_status_ok depth (set_session_lock true st)) as Hok.
    destruct (check_auth_status_self env depth (set_session_lock true st))
      as (S1 & S2 & _ & _).
    destruct (check_auth_status_rec env depth (set_session_lock true st))
      as [[v|e] st1]; cbn [fst snd is_ok] in *.
    + destruct (Hok st1 v eq_refl) as [Hs Ha].
      assert (Hc : cache_authenticated
                     (set_session_lock false (set_last_auth_check (Some ct) st1)) = true).
      { unfold cache_authenticated. cbn. now rewrite Hs, Ha. }
      split; [now left|now intros _].
    + split; [|discriminate]. right.
      apply (stale_later ct ct st); auto. apply Qle_refl.
  - cbn [fst snd is_ok]. destruct Htr as [Hc|Hs].
    + split; [now left|now intros _].
    + rewrite (stale_later now ct st st eq_refl eq_refl Hle Hs) in Hst. discriminate.
Qed.

Lemma wake_self (tid : nat) (st : state) : self (wake env tid st) = self st.
Proof.
  unfold wake. destruct (done tid st); [reflexivity|].
  destruct (keep_alive_iteration_spec env st) as [(st1 & -> & Hs & _) _]. exact Hs.
Qed.

Lemma logout_finish_stale (st : state) (now : Q) :
  stale now (logout_finish env st) = true.
Proof.
  unfold logout_finish.
  now destruct (Http._post env logout_path (events st)) as [r t1].
Qed.

Lemma logout_stale (point : cancellation) (st st' : state) (now : Q) :
  logout env point st = Some st' -> stale now st' = true.
Proof.
  unfold logout. destruct (logout_cancel env point st) as [st1|]; [|discriminate].
  intros [= <-]. apply logout_finish_stale.
Qed.

Lemma logout_cancel_self (point : cancellation) (st st' : state) :
  logout_cancel env point st = Some st' -> self st' = self st.
Proof.
  unfold logout_cancel.
  destruct (_keep_alive_task (self st)) as [tid|]; [|now intros [= <-]].
  destruct (done tid st); [now intros [= <-]|].
  unfold cancel_and_await.
  destruct (keep_alive_iteration_cancelled env point st) as (st1 & -> & Hs & _).
  now intros [= <-].
Qed.

Lemma run_trusted :
  forall (acts : list action) (st st' : state) (live live' : bool) (now ct : Q),
    trusted now st ->
    climbs now (readings_of acts ++ [ct]) = true ->
    Sequential.run env depth acts st live = Some (st', live') ->
    trusted ct st'.
Proof.
  induction acts as [|a acts IH]; intros st st' live live' now ct Htr Hcl Hrun.
  - cbn in Hrun. injection Hrun as <- _. cbn in Hcl.
    apply andb_true_iff in Hcl. destruct Hcl as [Hle _]. apply Qle_bool_iff in Hle.
    now apply (trusted_later now).
  - cbn [Sequential.run] in Hrun.
    destruct (perform env depth a st) as [st1|] eqn:Ep; [|discriminate].
    destruct a as [c|point|tid|point|]; cbn [perform readings_of app climbs] in *.
    + apply andb_true_iff in Hcl. destruct Hcl as [Hle Hcl]. apply Qle_bool_iff in Hle.
      injection Ep as <-.
      destruct (ensure_live_trusted now c st Htr Hle) as [Htr1 _].
      exact (IH _ _ _ _ c ct Htr1 Hcl Hrun).
    + assert (Htr1 : trusted now st1) by (right; now apply (logout_stale point st)).
      exact (IH _ _ _ _ now ct Htr1 Hcl Hrun).
    + injection Ep as <-.
      assert (Htr1 : trusted now (wake env tid st)).
      { unfold trusted, cache_authenticated, stale in *. now rewrite wake_self. }
      exact (IH _ _ _ _ now ct Htr1 Hcl Hrun).
    + assert (Htr1 : trusted now st1).
      { unfold trusted, cache_authenticated, stale in *.
        now rewrite (logout_cancel_self point st st1 Ep). }
      exact (IH _ _ _ _ now ct Htr1 Hcl Hrun).
    + injection Ep as <-.
      assert (Htr1 : trusted now (logout_finish env st))
        by (right; apply logout_finish_stale).
      exact (IH _ _ _ _ now ct Htr1 Hcl Hrun).
Qed.

End Trust.

(** X8: as long as the clock readings never go back, whatever the
    adapter has been through ([_ensure_live] calls that succeeded or
    raised, logouts, overlapped or not, keep-alive pings), a
    [get_session_info] that returns normally returns the cached status
    and that status reports an authenticated session: the fallback to the
    empty map is never taken and a payload left in the cache by a failed
    check is never handed out. *)
Theorem session_info_reports_authenticated :
  forall (env : environment) (depth : nat) (acts : list action) (ct : Q)
         (st st' : state) (live : bool) (v : json),
    nondecreasing (readings_of acts ++ [ct]) = true ->
    Sequential.run env depth acts __init__ false = Some (st, live) ->
    get_session_info env depth ct st = (Ok v, st') ->
    _session_status (self st') = Some v /\ get_authenticated v = Ok true.
Proof.
  intros env depth acts ct st st' live v Hnd Hrun Hinfo.
  assert (Htr : trusted ct st).
  { destruct (readings_of acts) as [|c cs] eqn:Er.
    - apply (run_trusted env depth acts __init__ st false live ct ct);
        [now right| |exact Hrun].
      rewrite Er. cbn. rewrite andb_true_r. apply Qle_bool_iff, Qle_refl.
    - apply (run_trusted env depth acts __init__ st false live c ct);
        [now right| |exact Hrun].
      rewrite Er. cbn [app climbs]. cbn [app nondecreasing] in Hnd. rewrite Hnd.
      rewrite andb_true_r. apply Qle_bool_iff, Qle_refl. }
  unfold get_session_info in Hinfo.
  destruct (ensure_live_trusted env depth ct ct st Htr (Qle_refl ct)) as [_ Hc].
  destruct (_ensure_live env depth ct st) as [[u|e] st1]; [|discriminate].
  cbn [fst snd is_ok] in Hc. specialize (Hc eq_refl).
  injection Hinfo as <- <-.
  unfold cache_authenticated in Hc.
  destruct (_session_status (self st1)) as [w|]; [|discriminate].
  destruct (get_authenticated w) as [[|]|] eqn:Ew; try discriminate.
  rewrite (authenticated_is_truthy w Ew). now split.
Qed.

Lemma session_info_reports_authenticated_witness :
  let env := Scenario.unauthorized_first 1 in
  match Sequential.run env 0 [EnsureLive 5; Wake 0%nat; Logout DuringSleep; EnsureLive 6]
                       __init__ false with
  | None => False
  | Some (st, _) =>
      match get_session_info env 0 400 st with
      | (Ok v, st') =>
          _session_status (self st') = Some v /\ get_authenticated v = Ok true
      | (Err _, _) => False
      end
  end.
Proof.
  cbn zeta.
  destruct (Sequential.run (Scenario.unauthorized_first 1) 0
              [EnsureLive 5; Wake 0%nat; Logout DuringSleep; EnsureLive 6] __init__ false)
    as [[st live]|] eqn:E; [|vm_compute in E; discriminate E].
  destruct (get_session_info (Scenario.unauthorized_first 1) 0 400 st)
    as [[v|e] st'] eqn:Ei.
  - apply (session_info_reports_authenticated (Scenario.unauthorized_first 1) 0
             [EnsureLive 5; Wake 0%nat; Logout DuringSleep; EnsureLive 6] 400 st st' live v);
      [reflexivity|exact E|exact Ei].
  - vm_compute in E. injection E as <- _. vm_compute in Ei. discriminate Ei.
Defined.

(** X9: after an [_ensure_live] that ran the check and returned, a
    [get_session_info] whose clock reading is within the check interval
    of it sends nothing, starts nothing, and returns the status that check
    cached. *)
Theorem fresh_cache_answers_without_a_request :
  forall (env : environment) (depth : nat) (ct ct' : Q) (st st1 : state),
    stale ct st = true ->
    _ensure_live env depth ct st = (Ok tt, st1) ->
    Qle_bool (ct' - ct) (_auth_check_interval (self st)) = true ->
    let out := get_session_info env depth ct' st1 in
    events (snd out) = events st1
    /\ tasks (snd out) = tasks st1
    /\ self (snd out) = self st1
    /\ exists v, fst out = Ok v
                 /\ _session_status (self st1) = Some v
                 /\ get_authenticated v = Ok true.
Proof.
  intros env depth ct ct' st st1 Hst Hlive Hclose. cbv zeta.
  unfold _ensure_live in Hlive.
  change (stale ct (set_session_lock true st)) with (stale ct st) in Hlive.
  rewrite Hst in Hlive. unfold _check_auth_status in Hlive.
  pose proof (check_auth_status_ok env depth (set_session_lock true st)) as Hok.
  destruct (check_auth_status_self env depth (set_session_lock true st))
    as (_ & S2 & _ & _).
  destruct (check_auth_status_rec env depth (set_session_lock true st))
    as [[v|e] st2]; [|discriminate].
  destruct (Hok st2 v eq_refl) as [Hs Ha]. cbn [snd] in S2.
  injection Hlive as <-.
  assert (Hfresh : stale ct' (set_session_lock false
                                (set_last_auth_check (Some ct) st2)) = false).
  { unfold stale. cbn. rewrite S2. cbn. now rewrite Hclose. }
  unfold get_session_info, _ensure_live.
  change (stale ct' (set_session_lock true
                       (set_session_lock false (set_last_auth_check (Some ct) st2))))
    with (stale ct' (set_session_lock false (set_last_auth_check (Some ct) st2))).
  rewrite Hfresh. cbn. rewrite Hs, (authenticated_is_truthy v Ha).
  repeat split. exists v. now repeat split.
Qed.

Lemma fresh_cache_answers_without_a_request_witness :
  let env := Scenario.authenticated in
  let st1 := snd (_ensure_live env 3 1000 __init__) in
  let out := get_session_info env 3 1300 st1 in
  events (snd out) = events st1
  /\ tasks (snd out) = tasks st1
  /\ self (snd out) = self st1
  /\ exists v, fst out = Ok v
               /\ _session_status (self st1) = Some v
               /\ get_authenticated v = Ok true.
Proof.
  apply (fresh_cache_answers_without_a_request Scenario.authenticated 3 1000 1300
           __init__ (snd (_ensure_live Scenario.authenticated 3 1000 __init__)));
    reflexivity.
Defined.

Section NeverAuthenticated.
Variable env : environment.
Variable depth : nat.
Hypothesis refuses :
  forall h, reports_unauthenticated (env h "POST" auth_status_path) = true.

Lemma refused_check (st : state) :
  exists v,
    _check_auth_status env depth st
    = (Err not_authenticated,
       set_session_status
         (Some v)
         (set_events (events st ++ [Attempt "POST" auth_status_path 0
                                            (env (events st) "POST" auth_status_path)])
                     st)).
Proof.
  pose proof (refuses (events st)) as H. unfold reports_unauthenticated in H.
  destruct (env (events st) "POST" auth_status_path) as [r| |] eqn:Er; try discriminate.
  apply andb_true_iff in H. destruct H as [Hs Hp].
  destruct (payload_of r) as [v|] eqn:Ev; [|discriminate].
  destruct (get_authenticated v) as [[|]|] eqn:Eg; try discriminate.
  exists v. unfold _check_auth_status. rewrite check_auth_status_rec_eq.
  unfold check_try_block.
  rewrite (post_success env auth_status_path (events st) r v Er Hs Ev), Eg.
  reflexivity.
Qed.

Lemma refused_ensure_live (ct : Q) (st : state) :
  _last_auth_check (self st) = None ->
  exists st1,
    _ensure_live env depth ct st = (Err not_authenticated, st1)
    /\ _last_auth_check (self st1) = None
    /\ tasks st1 = tasks st
    /\ _keep_alive_task (self st1) = _keep_alive_task (self st)
    /\ events st1 = events st ++ [Attempt "POST" auth_status_path 0
                                          (env (events st) "POST" auth_status_path)].
Proof.
  intros Hlast. unfold _ensure_live.
  assert (Hst : stale ct (set_session_lock true st) = true).
  { unfold stale. cbn. now rewrite Hlast. }
  rewrite Hst. destruct (refused_check (set_session_lock true st)) as [v ->].
  eexists. split; [reflexivity|]. cbn. now repeat split.
Qed.

Lemma refused_run :
  forall (cts : list Q) (st : state) (live : bool),
    _last_auth_check (self st) = None ->
    exists st',
      Sequential.run env depth (map EnsureLive cts) st live = Some (st', live)
      /\ _last_auth_check (self st') = None
      /\ tasks st' = tasks st
      /\ _keep_alive_task (self st') = _keep_alive_task (self st)
      /\ attempts (events st') = (attempts (events st) + List.length cts)%nat
      /\ calls_to auth_status_path (events st')
         = (calls_to auth_status_path (events st) + List.length cts)%nat.
Proof.
  induction cts as [|ct cts IH]; intros st live Hlast.
  - exists st. cbn. repeat split; auto; lia.
  - cbn [map Sequential.run perform live_after successful_check].
    destruct (refused_ensure_live ct st Hlast) as (st1 & He & L1 & T1 & K1 & E1).
    rewrite He. cbn [fst snd is_ok]. rewrite andb_false_r. cbn [orb].
    destruct (IH st1 live L1) as (st' & Hrun & H1 & H2 & H3 & H4 & H5).
    exists st'. split; [exact Hrun|].
    rewrite E1, attempts_app in H4. rewrite E1, calls_to_snoc in H5.
    cbn in H4, H5. cbn [List.length]. repeat split; auto; try congruence; lia.
Qed.

End NeverAuthenticated.

(** X10: a failed check is never cached.  Against a gateway that answers
    every status check with a 2xx payload not reporting an authenticated
    session, each of any number of [_ensure_live] calls, at whatever clock
    readings, sends one status request and nothing else; afterwards no
    time stamp is set and no keep-alive task has been started. *)
Theorem failed_checks_are_never_cached :
  forall (env : environment) (depth : nat) (cts : list Q),
    (forall h, reports_unauthenticated (env h "POST" auth_status_path) = true) ->
    exists st,
      Sequential.run env depth (map EnsureLive cts) __init__ false = Some (st, false)
      /\ attempts (events st) = List.length cts
      /\ calls_to auth_status_path (events st) = List.length cts
      /\ _last_auth_check (self st) = None
      /\ tasks st = []
      /\ _keep_alive_task (self st) = None.
Proof.
  intros env depth cts Href.
  destruct (refused_run env depth Href cts __init__ false eq_refl)
    as (st & Hrun & H1 & H2 & H3 & H4 & H5).
  exists st. repeat split; auto.
Qed.

Lemma failed_checks_are_never_cached_witness :
  exists st,
    Sequential.run Scenario.not_logged_in 3
                   (map EnsureLive [10; 11; 500]%Q) __init__ false = Some (st, false)
    /\ attempts (events st) = 3%nat
    /\ calls_to auth_status_path (events st) = 3%nat
    /\ _last_auth_check (self st) = None
    /\ tasks st = []
    /\ _keep_alive_task (self st) = None.
Proof.
  apply (failed_checks_are_never_cached Scenario.not_logged_in 3 [10; 11; 500]%Q).
  intros h. reflexivity.
Defined.

Lemma keep_alive_iteration_resumed (env : environment) (st : state) :
  exists t1,
    keep_alive_iteration env Resumed st = (NextIteration, set_events t1 st)
    /\ calls_to tickle_path t1 = (calls_to tickle_path (events st) + 1)%nat
    /\ forall q, tickle_path <> q -> attempts_to q t1 = attempts_to q (events st).
Proof.
  unfold keep_alive_iteration, _tickle. cbn [events set_events].
  set (t0 := events st ++ [Sleep (_keep_alive_interval (self st))]).
  pose proof (post_calls_self env tickle_path t0) as Hc.
  assert (Ho : forall q, tickle_path <> q ->
                         attempts_to q (snd (Http._post env tickle_path t0))
                         = attempts_to q t0).
  { intros q Hq. apply (post_other env tickle_path t0 q Hq). }
  assert (H0 : calls_to tickle_path t0 = calls_to tickle_path (events st)).
  { unfold t0. rewrite calls_to_app. cbn. lia. }
  assert (H1 : forall q, attempts_to q t0 = attempts_to q (events st)).
  { intros q. unfold t0. rewrite attempts_to_app. cbn. lia. }
  destruct (Http._post env tickle_path t0) as [[v|e] t1]; cbn [snd] in Hc, Ho;
    exists t1; (split; [reflexivity|]); (split; [lia|]);
    intros q Hq; rewrite (Ho q Hq); apply H1.
Qed.

(** X11: the keep-alive loop makes one call of [/tickle] for every pass
    whose awaits complete before the first cancellation, whether the pings
    succeed or fail, and one more when that cancellation arrives during a
    ping whose first request has come back; it sends nothing to any other
    path.  It has finished exactly when one of its passes was cancelled,
    in the sleep or in the ping, and it touches neither the adapter's
    attributes nor the tasks. *)
Theorem keep_alive_pings_until_cancelled :
  forall (env : environment) (rs : list resumption) (st : state),
    let out := _keep_alive_loop env rs st in
    calls_to tickle_path (events (snd out))
    = (calls_to tickle_path (events st) + pings rs)%nat
    /\ (forall q, tickle_path <> q ->
                  attempts_to q (events (snd out)) = attempts_to q (events st))
    /\ fst out = (if existsb is_cancelled rs then Done else Running)
    /\ self (snd out) = self st
    /\ tasks (snd out) = tasks st.
Proof.
  intros env rs. induction rs as [|r rs IH]; intros st; cbv zeta.
  - cbn. repeat split; auto.
  - cbn [_keep_alive_loop]. destruct r as [|point].
    + destruct (keep_alive_iteration_resumed env st) as (t1 & -> & Hc & Ho).
      specialize (IH (set_events t1 st)). cbv zeta in IH.
      destruct IH as (I1 & I2 & I3 & I4 & I5).
      cbn [events set_events self tasks] in I1, I2, I4, I5.
      cbn [pings existsb is_cancelled orb].
      split; [rewrite I1, Hc; lia|]. split; [|now repeat split].
      intros q Hq. rewrite (I2 q Hq). now apply Ho.
    + destruct (keep_alive_iteration_cancelled env point st)
        as (st1 & -> & Hs & Ht & _ & d & Hd & Ho & Hc).
      cbn [fst snd existsb is_cancelled orb]. rewrite Hd.
      split.
      * rewrite calls_to_app, Hc. destruct point as [|[|n]]; reflexivity.
      * split; [|now repeat split].
        intros q Hq. rewrite attempts_to_app.
        destruct (own_other _ _ _ _ Ho Hq) as (-> & _). lia.
Qed.

End SessionMore.

(** ** The adapters *)

Module AdapterFacts.
Import Session Trace TraceFacts Classify HttpFacts SessionFacts Verbs Adapters.

Lemma attempts_by_app m t u :
  attempts_by m (t ++ u) = (attempts_by m t + attempts_by m u)%nat.
Proof. unfold attempts_by. now rewrite filter_app, length_app. Qed.

Lemma calls_by_app m t u : calls_by m (t ++ u) = (calls_by m t + calls_by m u)%nat.
Proof. unfold calls_by. now rewrite filter_app, length_app. Qed.

Lemma posts_only_refl t : posts_only t t.
Proof. exists []. now rewrite app_nil_r. Qed.

Lemma posts_only_trans t u v : posts_only t u -> posts_only u v -> posts_only t v.
Proof.
  intros (d1 & -> & H1) (d2 & -> & H2). exists (d1 ++ d2).
  rewrite app_assoc, forallb_app, H1, H2. now split.
Qed.

(** Sleeps and POST requests count for no other method. *)
Lemma posts_only_other m t t' :
  String.eqb "POST" m = false ->
  posts_only t t' ->
  attempts_by m t' = attempts_by m t /\ calls_by m t' = calls_by m t.
Proof.
  intros Hm (delta & -> & Hp). rewrite attempts_by_app, calls_by_app.
  assert (H : attempts_by m delta = 0%nat /\ calls_by m delta = 0%nat).
  { induction delta as [|e delta IH]; [now split|].
    cbn [forallb] in Hp. apply andb_true_iff in Hp. destruct Hp as [He Hp].
    destruct (IH Hp) as [I1 I2]. unfold attempts_by, calls_by in *.
    destruct e as [m0 p k o|d]; cbn [filter is_post is_call_by] in *; [|now split].
    apply String.eqb_eq in He. subst m0. rewrite Hm. cbn [andb]. now split. }
  destruct H as [-> ->]. lia.
Qed.

Lemma own_post_is_post p delta :
  Forall (own "POST" p) delta -> forallb is_post delta = true.
Proof.
  intros H. induction H as [|e delta He _ IH]; [reflexivity|].
  cbn [forallb]. rewrite IH, andb_true_r.
  destruct e as [m q k o|d]; [|reflexivity]. destruct He as [-> _]. reflexivity.
Qed.

(** The events of a call of [_request_with_retry method path] count for
    [method] only. *)
Lemma own_counts m p delta :
  Forall (own m p) delta ->
  attempts_by m delta = attempts delta
  /\ calls_by m delta = List.length (filter (fun k => k =? 0) (attempt_numbers delta))
  /\ forall m', String.eqb m m' = false ->
                attempts_by m' delta = 0%nat /\ calls_by m' delta = 0%nat.
Proof.
  intros H. induction H as [|e delta He _ IH]; [now repeat split|].
  destruct IH as (I1 & I2 & I3). unfold attempts_by, calls_by, attempts in *.
  destruct e as [m0 q k o|d]; cbn [filter is_attempt is_call_by attempt_numbers].
  - destruct He as [-> _]. rewrite String.eqb_refl. cbn [andb List.length].
    split; [|split].
    + now rewrite I1.
    + destruct (k =? 0); cbn [List.length]; now rewrite I2.
    + intros m' Hm. rewrite Hm. cbn [andb]. now apply I3.
  - split; [|split]; auto.
Qed.

Lemma post_posts_only (env : environment) (p : string) (t : trace) :
  posts_only t (snd (Http._post env p t)).
Proof.
  destruct (post_delta env p t) as (delta & Hd & Hown & _).
  exists delta. split; [exact Hd|]. now apply (own_post_is_post p).
Qed.

Lemma reauthenticate_posts (env : environment) (st : state) :
  posts_only (events st) (events (snd (_reauthenticate env st))).
Proof.
  unfold _reauthenticate.
  pose proof (post_posts_only env reauthenticate_path (events st)) as H.
  destruct (Http._post env reauthenticate_path (events st)) as [[v|e] t1]; exact H.
Qed.

Section WithEnvironment.
Variable env : environment.

Lemma request_one_call (m p : string) (t : trace) :
  one_call m p t (snd (Http._request_with_retry env m p 3 1 t)).
Proof.
  unfold Http._request_with_retry.
  destruct (retry_loop_delta env m p 3 1 (Z.to_nat (3 + 1)) 0 t)
    as (delta & n & Hd & Hown & Hn & Hpos & Hnum & _); [right; reflexivity|].
  change (Z.to_nat (3 + 1)) with 4%nat in *.
  assert (Hn0 : n <> 0%nat) by (apply Hpos; discriminate).
  exists delta. destruct (own_counts m p delta Hown) as (_ & Hc & _).
  repeat split; auto.
  - rewrite attempts_numbers, Hnum, length_map, length_seq. lia.
  - rewrite attempts_numbers, Hnum, length_map, length_seq. lia.
  - rewrite Hc, Hnum. destruct n as [|n]; [contradiction|].
    rewrite numbers_shift. cbn [filter Z.eqb]. rewrite no_zero_from by lia.
    reflexivity.
Qed.

Lemma one_call_counts (m p : string) (t t' : trace) :
  one_call m p t t' ->
  calls_by m t' = (calls_by m t + 1)%nat
  /\ (attempts_by m t + 1 <= attempts_by m t' <= attempts_by m t + 4)%nat
  /\ forall m', String.eqb m m' = false ->
                attempts_by m' t' = attempts_by m' t /\ calls_by m' t' = calls_by m' t.
Proof.
  intros (delta & -> & Hown & Hn & Hc).
  destruct (own_counts m p delta Hown) as (Ha & _ & Ho).
  rewrite calls_by_app, attempts_by_app, Hc, Ha. split; [lia|split; [lia|]].
  intros m' Hm. rewrite attempts_by_app, calls_by_app.
  destruct (Ho m' Hm) as [-> ->]. lia.
Qed.

Lemma try_block_posts (st : state) :
  posts_only (events st) (events (snd (check_try_block env st))).
Proof.
  destruct (check_try_block_post env st) as (-> & _). apply post_posts_only.
Qed.

Lemma check_auth_status_posts :
  forall (d : nat) (st : state),
    posts_only (events st) (events (snd (check_auth_status_rec env d st))).
Proof.
  induction d as [|d IH]; intros st; rewrite check_auth_status_rec_eq;
    pose proof (try_block_posts st) as Ht;
    destruct (check_try_block env st) as [[v|e] st1]; cbn [fst snd] in *; auto.
  all: destruct e as [m code| | | | |]; cbn [snd]; auto.
  all: destruct (status_code_is 401 code); cbn [snd]; auto.
  - eapply posts_only_trans; [eassumption|apply reauthenticate_posts].
  - pose proof (reauthenticate_posts env st1) as Hr;
      destruct (_reauthenticate env st1) as [[u|e2] st2]; cbn [snd] in *.
    + eapply posts_only_trans; [eassumption|].
      eapply posts_only_trans; [eassumption|apply IH].
    + eapply posts_only_trans; eassumption.
Qed.

Variable depth : nat.

(** [_ensure_live] sends POST requests only. *)
Lemma ensure_live_posts (ct : Q) (st : state) :
  posts_only (events st) (events (snd (_ensure_live env depth ct st))).
Proof.
  unfold _ensure_live. destruct (stale ct (set_session_lock true st)).
  - unfold _check_auth_status.
    pose proof (check_auth_status_posts depth (set_session_lock true st)) as H.
    destruct (check_auth_status_rec env depth (set_session_lock true st))
      as [[v|e] st1]; exact H.
  - apply posts_only_refl.
Qed.

(** [logout] returns, and sends POST requests only; so does each of its
    halves. *)
Lemma logout_cancel_posts (point : cancellation) (st : state) :
  exists st1,
    logout_cancel env point st = Some st1
    /\ posts_only (events st) (events st1)
    /\ self st1 = self st.
Proof.
  unfold logout_cancel.
  destruct (_keep_alive_task (self st)) as [tid|];
    [|exists st; split; [reflexivity|split; [apply posts_only_refl|reflexivity]]].
  destruct (done tid st);
    [exists st; split; [reflexivity|split; [apply posts_only_refl|reflexivity]]|].
  unfold cancel_and_await.
  destruct (SequentialFacts.keep_alive_iteration_cancelled env point st)
    as (st1 & -> & Hs & _ & _ & d & Hd & Hown & _).
  eexists. split; [reflexivity|]. cbn [events set_tasks self]. split; [|exact Hs].
  exists d. split; [exact Hd|]. now apply (own_post_is_post tickle_path).
Qed.

Lemma logout_finish_posts (st : state) :
  posts_only (events st) (events (logout_finish env st)).
Proof.
  unfold logout_finish.
  pose proof (post_posts_only env logout_path (events st)) as H.
  destruct (Http._post env logout_path (events st)) as [r t1]. exact H.
Qed.

Lemma logout_posts (point : cancellation) (st : state) :
  exists st', logout env point st = Some st' /\ posts_only (events st) (events st').
Proof.
  unfold logout. destruct (logout_cancel_posts point st) as (st1 & -> & Hp & _).
  eexists. split; [reflexivity|].
  apply (posts_only_trans _ _ _ Hp). apply logout_finish_posts.
Qed.

End WithEnvironment.

(** X12: [cancel_order] sends the DELETE only after [_ensure_live] has
    returned.  When [_ensure_live] raises, [cancel_order] raises the same
    error and nothing has been sent but the session's own requests, none
    of which is a DELETE; otherwise exactly one call of the transport
    follows, of one to four DELETE requests, all to the order's path, and
    its value or error is what [cancel_order] returns or raises. *)
Theorem cancel_needs_a_live_session :
  forall (env : environment) (depth : nat) (account order_id : string)
         (ct : Q) (st : state),
    let live := _ensure_live env depth ct st in
    let out := cancel_order env depth account order_id ct st in
    attempts_by "DELETE" (events (snd live)) = attempts_by "DELETE" (events st)
    /\ (forall e, fst live = Err e -> out = (Err e, snd live))
    /\ (is_ok (fst live) = true ->
        one_call "DELETE" (order_path account order_id)
                 (events (snd live)) (events (snd out))
        /\ fst out = fst (_delete env (order_path account order_id) (events (snd live)))
        /\ self (snd out) = self (snd live)
        /\ tasks (snd out) = tasks (snd live)).
Proof.
  intros env depth account order_id ct st. cbv zeta. unfold cancel_order.
  pose proof (ensure_live_posts env depth ct st) as Hp.
  destruct (posts_only_other "DELETE" _ _ eq_refl Hp) as [Ha _].
  destruct (_ensure_live env depth ct st) as [[u|e] st1]; cbn [fst snd is_ok] in *.
  - split; [exact Ha|]. split; [discriminate|]. intros _.
    unfold _delete.
    pose proof (request_one_call env "DELETE" (order_path account order_id) (events st1))
      as H1.
    destruct (Http._request_with_retry env "DELETE" (order_path account order_id) 3 1
                                       (events st1)) as [[d|e] t1];
      cbn [fst snd events set_events self tasks] in *; now repeat split.
  - split; [exact Ha|]. split; [|discriminate]. now intros e' [= <-].
Qed.

(** X13: while the cached check is fresh and the lock is free, a read
    ([get_order_status], [get_account_summary]) costs exactly one call of
    the transport, of one to four GET requests to the path of the read: no
    request of the session is sent, and the adapter's attributes and the
    tasks are as before. *)
Theorem reads_under_a_fresh_check_send_one_call :
  forall (env : environment) (depth : nat) (id : string) (ct : Q) (st : state),
    stale ct st = false ->
    _session_lock (self st) = false ->
    let status := get_order_status env depth id ct st in
    let summary := get_account_summary env depth id ct st in
    one_call "GET" (order_status_path id) (events st) (events (snd status))
    /\ one_call "GET" (summary_path id) (events st) (events (snd summary))
    /\ fst status = fst (_get env (order_status_path id) (events st))
    /\ fst summary = fst (_get env (summary_path id) (events st))
    /\ self (snd status) = self st /\ tasks (snd status) = tasks st
    /\ self (snd summary) = self st /\ tasks (snd summary) = tasks st.
Proof.
  intros env depth id ct st Hst Hlock. cbv zeta.
  unfold get_order_status, get_account_summary, _ensure_live.
  change (stale ct (set_session_lock true st)) with (stale ct st). rewrite Hst.
  assert (Hself : self (set_session_lock false (set_session_lock true st)) = self st).
  { destruct st as [a ts t]. destruct a. cbn in *. now subst. }
  cbn [events set_session_lock with_self]. unfold _get.
  pose proof (request_one_call env "GET" (order_status_path id) (events st)) as H1.
  pose proof (request_one_call env "GET" (summary_path id) (events st)) as H2.
  destruct (Http._request_with_retry env "GET" (order_status_path id) 3 1 (events st))
    as [[d1|e1] t1];
    destruct (Http._request_with_retry env "GET" (summary_path id) 3 1 (events st))
      as [[d2|e2] t2];
    cbn [fst snd events set_events self tasks] in *; repeat split; auto.
Qed.

Lemma reads_under_a_fresh_check_send_one_call_witness :
  let env := Scenario.authenticated in
  let st := snd (_ensure_live env 3 1000 __init__) in
  let status := get_order_status env 3 "42" 1200 st in
  let summary := get_account_summary env 3 "42" 1200 st in
  one_call "GET" (order_status_path "42") (events st) (events (snd status))
  /\ one_call "GET" (summary_path "42") (events st) (events (snd summary))
  /\ fst status = fst (_get env (order_status_path "42") (events st))
  /\ fst summary = fst (_get env (summary_path "42") (events st))
  /\ self (snd status) = self st /\ tasks (snd status) = tasks st
  /\ self (snd summary) = self st /\ tasks (snd summary) = tasks st.
Proof.
  apply (reads_under_a_fresh_check_send_one_call Scenario.authenticated 3 "42" 1200
           (snd (_ensure_live Scenario.authenticated 3 1000 __init__)));
    reflexivity.
Defined.

Section Fallback.
Variable env : environment.

Lemma get_counts (p : string) (t : trace) :
  calls_by "GET" (snd (_get env p t)) = (calls_by "GET" t + 1)%nat
  /\ attempts_by "POST" (snd (_get env p t)) = attempts_by "POST" t.
Proof.
  destruct (one_call_counts "GET" p t _ (request_one_call env "GET" p t))
    as (Hc & _ & Ho).
  split; [exact Hc|]. now apply Ho.
Qed.

Lemma try_endpoints_spec :
  forall (endpoints : list string) (st : state),
    let out := try_endpoints env endpoints st in
    exists k,
      calls_by "GET" (events (snd out)) = (calls_by "GET" (events st) + k)%nat
      /\ (k <= List.length endpoints)%nat
      /\ (endpoints <> [] -> (1 <= k)%nat)
      /\ (truthy (fst out) = true
          \/ (fst out = JObject [] /\ k = List.length endpoints))
      /\ attempts_by "POST" (events (snd out)) = attempts_by "POST" (events st)
      /\ self (snd out) = self st
      /\ tasks (snd out) = tasks st.
Proof.
  induction endpoints as [|endpoint rest IH]; intros st; cbv zeta.
  - exists 0%nat. cbn. split; [lia|]. split; [lia|]. split; [now intros []|].
    split; [now right|]. now repeat split.
  - cbn [try_endpoints].
    destruct (get_counts endpoint (events st)) as [Hc Hp].
    destruct (_get env endpoint (events st)) as [[data|e] t1]; cbn [snd] in Hc, Hp.
    + destruct (truthy data) eqn:Ed.
      * exists 1%nat. cbn [fst snd events set_events self tasks List.length].
        repeat split; auto; try lia.
      * specialize (IH (set_events t1 st)). cbv zeta in IH.
        destruct IH as (k & I1 & I2 & _ & I4 & I5 & I6 & I7).
        cbn [events set_events self tasks] in I1, I5, I6, I7.
        exists (S k). cbn [List.length]. repeat split; auto; try lia.
        destruct I4 as [I4|[I4 ->]]; [now left|right; now split].
    + specialize (IH (set_events t1 st)). cbv zeta in IH.
      destruct IH as (k & I1 & I2 & _ & I4 & I5 & I6 & I7).
      cbn [events set_events self tasks] in I1, I5, I6, I7.
      exists (S k). cbn [List.length]. repeat split; auto; try lia.
      destruct I4 as [I4|[I4 ->]]; [now left|right; now split].
Qed.

End Fallback.

(** X14: [get_account_pnl_summary] raises only what [_ensure_live] raises.
    Once [_ensure_live] has returned it always returns a value, after one
    to three GET calls and no POST: the value is truthy (the payload of
    the first endpoint that gave one), or it is the empty map and all
    three endpoints have been called. *)
Theorem pnl_summary_never_raises_once_live :
  forall (env : environment) (depth : nat) (account : string) (ct : Q) (st : state),
    let live := _ensure_live env depth ct st in
    let out := get_account_pnl_summary env depth account ct st in
    (forall e, fst live = Err e -> out = (Err e, snd live))
    /\ (is_ok (fst live) = true ->
        exists data k,
          fst out = Ok data
          /\ calls_by "GET" (events (snd out))
             = (calls_by "GET" (events (snd live)) + k)%nat
          /\ (1 <= k <= 3)%nat
          /\ (truthy data = true \/ (data = JObject [] /\ k = 3%nat))
          /\ attempts_by "POST" (events (snd out))
             = attempts_by "POST" (events (snd live))
          /\ self (snd out) = self (snd live)
          /\ tasks (snd out) = tasks (snd live)).
Proof.
  intros env depth account ct st. cbv zeta. unfold get_account_pnl_summary.
  destruct (_ensure_live env depth ct st) as [[u|e] st1]; cbn [fst snd is_ok].
  - split; [discriminate|]. intros _.
    destruct (try_endpoints_spec env (endpoints_to_try account) st1)
      as (k & H1 & H2 & H3 & H4 & H5 & H6 & H7).
    destruct (try_endpoints env (endpoints_to_try account) st1) as [data st2].
    cbn [fst snd List.length endpoints_to_try] in *.
    exists data, k. repeat split; auto.
    apply H3. discriminate.
  - split; [|discriminate]. now intros e' [= <-].
Qed.

Section Scanner.
Variable env : environment.
Variable depth : nat.

Lemma get_scanner_params_cached (ct : Q) (sc : ScannerAdapter) :
  is_none (_cached_params sc) = false ->
  let out := get_scanner_params env depth ct sc in
  _cached_params (snd out) = _cached_params sc
  /\ posts_only (events (session sc)) (events (session (snd out)))
  /\ forall v, fst out = Ok v -> v = _cached_params sc.
Proof.
  intros Hc. cbv zeta. unfold get_scanner_params. rewrite Hc.
  pose proof (ensure_live_posts env depth ct (session sc)) as Hp.
  destruct (_ensure_live env depth ct (session sc)) as [[u|e] st1];
    cbn [fst snd session _cached_params] in *; repeat split; auto.
  - now intros v [= <-].
  - discriminate.
Qed.

Lemma scan_codes_state (ct : Q) (sc : ScannerAdapter) :
  snd (get_available_scan_codes env depth ct sc)
  = snd (get_scanner_params env depth ct sc).
Proof.
  unfold get_available_scan_codes.
  now destruct (get_scanner_params env depth ct sc) as [[v|e] sc1].
Qed.

Lemma locations_state (ct : Q) (sc : ScannerAdapter) :
  snd (get_available_locations env depth ct sc)
  = snd (get_scanner_params env depth ct sc).
Proof.
  unfold get_available_locations.
  now destruct (get_scanner_params env depth ct sc) as [[v|e] sc1].
Qed.

Lemma scanner_perform_cached (c : scanner_call) (sc : ScannerAdapter) :
  is_none (_cached_params sc) = false ->
  exists sc1,
    scanner_perform env depth c sc = Some sc1
    /\ _cached_params sc1 = _cached_params sc
    /\ posts_only (events (session sc)) (events (session sc1)).
Proof.
  intros Hc. destruct c as [ct|ct|ct|point]; cbn [scanner_perform].
  - eexists. split; [reflexivity|].
    destruct (get_scanner_params_cached ct sc Hc) as (H1 & H2 & _). now split.
  - eexists. split; [reflexivity|]. rewrite scan_codes_state.
    destruct (get_scanner_params_cached ct sc Hc) as (H1 & H2 & _). now split.
  - eexists. split; [reflexivity|]. rewrite locations_state.
    destruct (get_scanner_params_cached ct sc Hc) as (H1 & H2 & _). now split.
  - unfold scanner_logout.
    destruct (logout_posts env point (session sc)) as (st1 & -> & Hp).
    eexists. split; [reflexivity|]. now split.
Qed.

Lemma scanner_run_cached :
  forall (calls : list scanner_call) (sc : ScannerAdapter),
    is_none (_cached_params sc) = false ->
    exists sc',
      scanner_run env depth calls sc = Some sc'
      /\ _cached_params sc' = _cached_params sc
      /\ posts_only (events (session sc)) (events (session sc')).
Proof.
  induction calls as [|c calls IH]; intros sc Hc.
  - exists sc. repeat split. apply posts_only_refl.
  - destruct (scanner_perform_cached c sc Hc) as (sc1 & Hp & H1 & H2).
    cbn [scanner_run]. rewrite Hp.
    destruct (IH sc1) as (sc' & Hr & H3 & H4); [now rewrite H1|].
    exists sc'. split; [exact Hr|]. split; [congruence|].
    now apply (posts_only_trans _ _ _ H2).
Qed.

End Scanner.

(** X15: the scanner parameters are fetched once.  When [_cached_params]
    holds a value other than [None], no sequence of
    [get_scanner_params], [get_available_scan_codes],
    [get_available_locations] and [logout] calls sends a GET request or
    changes the cached value (a logout does not clear it), and a
    [get_scanner_params] that returns afterwards returns that value. *)
Theorem scanner_params_are_fetched_once :
  forall (env : environment) (depth : nat) (calls : list scanner_call)
         (ct : Q) (sc : ScannerAdapter),
    is_none (_cached_params sc) = false ->
    exists sc',
      scanner_run env depth calls sc = Some sc'
      /\ _cached_params sc' = _cached_params sc
      /\ attempts_by "GET" (events (session sc'))
         = attempts_by "GET" (events (session sc))
      /\ forall v, fst (get_scanner_params env depth ct sc') = Ok v ->
                   v = _cached_params sc.
Proof.
  intros env depth calls ct sc Hc.
  destruct (scanner_run_cached env depth calls sc Hc) as (sc' & Hr & H1 & H2).
  exists sc'. split; [exact Hr|]. split; [exact H1|]. split.
  - now destruct (posts_only_other "GET" _ _ eq_refl H2).
  - intros v Hv. rewrite <- H1.
    apply (get_scanner_params_cached env depth ct sc'); [now rewrite H1|exact Hv].
Qed.

Lemma scanner_params_are_fetched_once_witness :
  let env := Scenario.authenticated in
  let sc := snd (get_scanner_params env 3 10 scanner_init) in
  exists sc',
    scanner_run env 3 [GetScanCodes 20; ScannerLogout (DuringPing 1); GetLocations 30; GetParams 900] sc
    = Some sc'
    /\ _cached_params sc' = _cached_params sc
    /\ attempts_by "GET" (events (session sc'))
       = attempts_by "GET" (events (session sc))
    /\ forall v, fst (get_scanner_params env 3 1000 sc') = Ok v ->
                 v = _cached_params sc.
Proof.
  apply (scanner_params_are_fetched_once Scenario.authenticated 3
           [GetScanCodes 20; ScannerLogout (DuringPing 1); GetLocations 30; GetParams 900] 1000
           (snd (get_scanner_params Scenario.authenticated 3 10 scanner_init))).
  reflexivity.
Defined.

(** X16: a [get_scanner_params] that returns leaves in [_cached_params]
    the value it returned, and has made one GET call when the cache held
    [None] and none otherwise; so a payload of [null] is returned but not
    kept, and the next call fetches again. *)
Theorem scanner_params_cache_what_was_returned :
  forall (env : environment) (depth : nat) (ct : Q) (sc : ScannerAdapter) (v : json),
    fst (get_scanner_params env depth ct sc) = Ok v ->
    let sc' := snd (get_scanner_params env depth ct sc) in
    _cached_params sc' = v
    /\ calls_by "GET" (events (session sc'))
       = (calls_by "GET" (events (session sc))
          + (if is_none (_cached_params sc) then 1 else 0))%nat
    /\ (is_none v = true ->
        forall ct' w,
          fst (get_scanner_params env depth ct' sc') = Ok w ->
          calls_by "GET" (events (session (snd (get_scanner_params env depth ct' sc'))))
          = (calls_by "GET" (events (session sc')) + 1)%nat).
Proof.
  assert (Hone : forall env depth ct sc v,
             fst (get_scanner_params env depth ct sc) = Ok v ->
             _cached_params (snd (get_scanner_params env depth ct sc)) = v
             /\ calls_by "GET" (events (session (snd (get_scanner_params env depth ct sc))))
                = (calls_by "GET" (events (session sc))
                   + (if is_none (_cached_params sc) then 1 else 0))%nat).
  { intros env depth ct sc v. unfold get_scanner_params.
    pose proof (ensure_live_posts env depth ct (session sc)) as Hp.
    destruct (posts_only_other "GET" _ _ eq_refl Hp) as [_ Hg].
    destruct (_ensure_live env depth ct (session sc)) as [[u|e] st1];
      cbn [fst snd] in *; [|discriminate].
    destruct (is_none (_cached_params sc)).
    - destruct (get_counts env scanner_params_path (events st1)) as [Hc _].
      destruct (_get env scanner_params_path (events st1)) as [[data|e] t1];
        cbn [fst snd session _cached_params events set_events] in *; [|discriminate].
      intros [= <-]. split; [reflexivity|lia].
    - cbn [fst snd session _cached_params]. intros [= <-]. split; [reflexivity|lia]. }
  intros env depth ct sc v Hv. cbv zeta.
  destruct (Hone env depth ct sc v Hv) as [H1 H2].
  split; [exact H1|]. split; [exact H2|].
  intros Hnull ct' w Hw.
  destruct (Hone env depth ct' _ w Hw) as [_ H3].
  now rewrite H1, Hnull in H3.
Qed.

Lemma scanner_params_cache_what_was_returned_witness :
  let env := Scenario.authenticated in
  let sc' := snd (get_scanner_params env 3 10 scanner_init) in
  _cached_params sc' = JObject [("authenticated", JBool true)]
  /\ calls_by "GET" (events (session sc'))
     = (calls_by "GET" (events (session scanner_init))
        + (if is_none (_cached_params scanner_init) then 1 else 0))%nat
  /\ (is_none (JObject [("authenticated", JBool true)]) = true ->
      forall ct' w,
        fst (get_scanner_params env 3 ct' sc') = Ok w ->
        calls_by "GET" (events (session (snd (get_scanner_params env 3 ct' sc'))))
        = (calls_by "GET" (events (session sc')) + 1)%nat).
Proof.
  apply (scanner_params_cache_what_was_returned Scenario.authenticated 3 10 scanner_init
           (JObject [("authenticated", JBool true)])).
  reflexivity.
Defined.

Section AllPositions.
Variable env : environment.
Variable depth : nat.
Variable Position : Type.
Variable validate : list (string * json) -> option Position.
Variable account : string.
Variable clock : Z -> Q.

Lemma positions_calls (page : Z) (ct : Q) (st : state) :
  (calls_by "GET" (events (snd (positions env depth Position validate account page ct st)))
   <= calls_by "GET" (events st) + 1)%nat.
Proof.
  unfold positions.
  pose proof (ensure_live_posts env depth ct st) as Hp.
  destruct (posts_only_other "GET" _ _ eq_refl Hp) as [_ Hg].
  destruct (_ensure_live env depth ct st) as [[u|e] st1]; cbn [fst snd] in *; [|lia].
  destruct (get_counts env (positions_path account page) (events st1)) as [Hc _].
  destruct (_get env (positions_path account page) (events st1)) as [[data|e] t1];
    cbn [snd events set_events] in *; lia.
Qed.

Lemma all_positions_loop_returns :
  forall (k remaining : nat) (page : Z) (all : list Position) (st : state),
    Z.of_nat (S k) = 101 - page ->
    (S k <= remaining)%nat ->
    exists ps st',
      all_positions_loop env depth Position validate remaining account clock page all st
      = Some (ps, st')
      /\ (calls_by "GET" (events st') <= calls_by "GET" (events st) + S k)%nat
      /\ all_positions_loop env depth Position validate (S k) account clock page all st
         = Some (ps, st').
Proof.
  induction k as [|k IH]; intros remaining page all st Hk Hrem;
    (destruct remaining as [|rem]; [lia|]); cbn [all_positions_loop];
    pose proof (positions_calls page (clock page) st) as Hc;
    destruct (positions env depth Position validate account page (clock page) st)
      as [[[|p ps]|e] st1]; cbn [snd] in Hc.
  all: try (eexists; eexists; split; [reflexivity|split; [lia|reflexivity]]).
  - replace (page + 1 >? 100) with true by (symmetry; apply Z.gtb_lt; lia).
    eexists; eexists; split; [reflexivity|split; [lia|reflexivity]].
  - replace (page + 1 >? 100) with false
      by (symmetry; apply not_true_is_false; rewrite Z.gtb_lt; lia).
    destruct (IH rem (page + 1) (all ++ p :: ps) st1) as (qs & st' & H1 & H2 & H3);
      [lia|lia|].
    exists qs, st'. split; [exact H1|]. split; [lia|exact H3].
Qed.

End AllPositions.

(** X17: [all_positions] always comes back with a list: whatever the
    gateway answers and whatever the validation of [Position] accepts, the
    loop ends within 101 passes, having made at most 101 GET calls; an
    error on a page ends the listing without being raised. *)
Theorem all_positions_always_returns :
  forall (env : environment) (depth : nat) (Position : Type)
         (validate : list (string * json) -> option Position)
         (remaining : nat) (account : string) (clock : Z -> Q) (st : state),
    (101 <= remaining)%nat ->
    exists ps st',
      all_positions env depth Position validate remaining account clock st
      = Some (ps, st')
      /\ (calls_by "GET" (events st') <= calls_by "GET" (events st) + 101)%nat
      /\ all_positions env depth Position validate 101 account clock st
         = Some (ps, st').
Proof.
  intros env depth Position validate remaining account clock st Hrem.
  unfold all_positions.
  apply (all_positions_loop_returns env depth Position validate account clock
           100 remaining 0 [] st); [reflexivity|exact Hrem].
Qed.

Lemma all_positions_always_returns_witness :
  exists ps st',
    all_positions Scenario.authenticated 2 json (fun fields => Some (JObject fields))
                  500 "U1" (fun page => inject_Z page) __init__
    = Some (ps, st')
    /\ (calls_by "GET" (events st') <= calls_by "GET" (events __init__) + 101)%nat
    /\ all_positions Scenario.authenticated 2 json (fun fields => Some (JObject fields))
                     101 "U1" (fun page => inject_Z page) __init__
       = Some (ps, st').
Proof.
  apply (all_positions_always_returns Scenario.authenticated 2 json
           (fun fields => Some (JObject fields)) 500 "U1"
           (fun page => inject_Z page) __init__).
  lia.
Defined.

End AdapterFacts.

(** ** The client *)

Module ClientFacts.
Import Session Trace TraceFacts Classify HttpFacts Client.

Lemma finished_replace (ts : list task_state) (i tid : nat) :
  finished ts tid -> finished (replace_nth i Done ts) tid.
Proof.
  unfold finished. revert i tid.
  induction ts as [|x ts IH]; intros [|i] [|tid]; cbn [replace_nth nth_error]; auto.
  discriminate.
Qed.

Lemma finished_replaced (ts : list task_state) (tid : nat) :
  finished (replace_nth tid Done ts) tid.
Proof.
  unfold finished. revert tid.
  induction ts as [|x ts IH]; intros [|tid]; cbn [replace_nth nth_error];
    auto; discriminate.
Qed.

Lemma done_finished (tid : nat) (st : state) :
  done tid st = true <-> finished (tasks st) tid.
Proof.
  unfold done, finished. destruct (nth_error (tasks st) tid) as [[|]|]; split;
    try discriminate; try reflexivity; intros H; now contradiction H.
Qed.

Section WithEnvironment.
Variable env : environment.

Lemma logout_cancel_shape (point : cancellation) (st : state) :
  exists st1 d,
    logout_cancel env point st = Some st1
    /\ self st1 = self st
    /\ events st1 = events st ++ d
    /\ Forall (own "POST" tickle_path) d
    /\ (point = DuringSleep -> d = [])
    /\ (forall tid, _keep_alive_task (self st) = Some tid -> finished (tasks st1) tid)
    /\ (forall tid, finished (tasks st) tid -> finished (tasks st1) tid)
    /\ List.length (tasks st1) = List.length (tasks st).
Proof.
  assert (Hsame : exists st1 d,
             Some st = Some st1 /\ self st1 = self st /\ events st1 = events st ++ d
             /\ Forall (own "POST" tickle_path) d /\ (point = DuringSleep -> d = [])
             /\ (forall tid, finished (tasks st) tid -> finished (tasks st1) tid)
             /\ List.length (tasks st1) = List.length (tasks st)).
  { exists st, []. rewrite app_nil_r. repeat split; auto. }
  unfold logout_cancel.
  destruct (_keep_alive_task (self st)) as [tid|] eqn:Ek.
  - destruct (done tid st) eqn:Ed.
    + destruct Hsame as (st1 & d & [= <-] & H1 & H2 & H3 & H4 & H5 & H6).
      exists st, d. split; [reflexivity|]. split; [exact H1|]. split; [exact H2|].
      split; [exact H3|]. split; [exact H4|]. split; [|split; [exact H5|exact H6]].
      intros tid' [= <-]. now apply (done_finished tid st).
    + unfold cancel_and_await.
      destruct (SequentialFacts.keep_alive_iteration_cancelled env point st)
        as (st1 & -> & Hs & Ht & Hp & d & Hd & Hown & _).
      eexists. exists d. split; [reflexivity|]. cbn [self events tasks set_tasks].
      split; [exact Hs|]. split; [exact Hd|]. split; [exact Hown|].
      split.
      { intros H. rewrite (Hp H), <- (app_nil_r (events st)) in Hd at 1.
        now apply app_inv_head in Hd. }
      rewrite Ht. split; [|split].
      * intros tid' [= <-]. apply finished_replaced.
      * intros tid' Hf. now apply finished_replace.
      * clear. revert tid.
        induction (tasks st) as [|x ts IH]; intros [|tid]; cbn; auto.
  - destruct Hsame as (st1 & d & [= <-] & H1 & H2 & H3 & H4 & H5 & H6).
    exists st, d. split; [reflexivity|]. split; [exact H1|]. split; [exact H2|].
    split; [exact H3|]. split; [exact H4|]. split; [|split; [exact H5|exact H6]].
    discriminate.
Qed.

Lemma adapter_logout_spec (point : cancellation) (a : SessionAdapter)
      (ts : list task_state) (t : trace) :
  exists a' ts' t',
    adapter_logout env point a ts t = Some (a', ts', t')
    /\ _session_status a' = None
    /\ _last_auth_check a' = None
    /\ _keep_alive_task a' = _keep_alive_task a
    /\ (forall tid, _keep_alive_task a = Some tid -> finished ts' tid)
    /\ (forall tid, finished ts tid -> finished ts' tid)
    /\ List.length ts' = List.length ts
    /\ calls_to logout_path t' = (calls_to logout_path t + 1)%nat
    /\ (forall q, logout_path <> q -> tickle_path <> q ->
                  attempts_to q t' = attempts_to q t)
    /\ (point = DuringSleep -> attempts_to tickle_path t' = attempts_to tickle_path t).
Proof.
  unfold adapter_logout, Session.logout.
  destruct (logout_cancel_shape point (mkState a ts t))
    as (st1 & d & -> & Hs & He & Hown & Hd & F & M & N).
  cbn [self tasks events] in *.
  assert (Hc : calls_to logout_path (events (logout_finish env st1))
               = (calls_to logout_path (events st1) + 1)%nat
               /\ (forall q, logout_path <> q ->
                             attempts_to q (events (logout_finish env st1))
                             = attempts_to q (events st1))
               /\ self (logout_finish env st1)
                  = self (set_last_auth_check None (set_session_status None st1))
               /\ tasks (logout_finish env st1) = tasks st1).
  { unfold logout_finish.
    pose proof (post_calls_self env logout_path (events st1)) as H1.
    assert (H2 : forall q, logout_path <> q ->
                           attempts_to q (snd (Http._post env logout_path (events st1)))
                           = attempts_to q (events st1)).
    { intros q Hq. apply (post_other env logout_path (events st1) q Hq). }
    destruct (Http._post env logout_path (events st1)) as [r t1]. now repeat split. }
  destruct Hc as (C1 & C2 & C3 & C4).
  eexists. eexists. eexists. split; [reflexivity|].
  rewrite C3, C4, C1. cbn [self set_last_auth_check set_session_status with_self
                                _session_status _last_auth_check _keep_alive_task].
  rewrite Hs.
  split; [reflexivity|]. split; [reflexivity|]. split; [reflexivity|].
  split; [exact F|]. split; [exact M|]. split; [exact N|].
  assert (Hl : tickle_path <> logout_path) by discriminate.
  destruct (own_other _ _ _ _ Hown Hl) as (_ & Hcl & _).
  split; [rewrite He, calls_to_app, Hcl; lia|]. split.
  - intros q Hq Hq'. rewrite (C2 q Hq), He, attempts_to_app.
    destruct (own_other _ _ _ _ Hown Hq') as (-> & _). lia.
  - intros Hp. rewrite C2 by discriminate. rewrite He, (Hd Hp), app_nil_r. reflexivity.
Qed.

End WithEnvironment.

Lemma logged_out_intro (ts : list task_state) (a : SessionAdapter) :
  _session_status a = None ->
  _last_auth_check a = None ->
  (forall tid, _keep_alive_task a = Some tid -> finished ts tid) ->
  logged_out ts a.
Proof.
  intros H1 H2 H3. repeat split; auto.
  unfold Sequential.keep_alive_running. cbn [self].
  destruct (_keep_alive_task a) as [tid|]; [|reflexivity].
  apply negb_false_iff. apply (done_finished tid (mkState a ts [])). now apply H3.
Qed.

(** X18: [IBClient.logout] always returns.  It makes one logout call for
    each of the six adapters and sends nothing to any other path; all it
    may add besides is what a ping that a cancellation cuts short had sent
    to [/tickle].  Afterwards every adapter has an empty cache and no time
    stamp, none of them has a keep-alive task running, and no task has
    been started. *)
Theorem client_logout_logs_out_every_adapter :
  forall (env : environment) (point : nat -> cancellation) (c : IBClient),
    exists c',
      Client.logout env point c = Some c'
      /\ calls_to logout_path (log c') = (calls_to logout_path (log c) + 6)%nat
      /\ (forall q, logout_path <> q -> tickle_path <> q ->
                    attempts_to q (log c') = attempts_to q (log c))
      /\ ((forall i, point i = DuringSleep) ->
          forall q, logout_path <> q -> attempts_to q (log c') = attempts_to q (log c))
      /\ Forall (logged_out (loop_tasks c')) (adapters c')
      /\ List.length (loop_tasks c') = List.length (loop_tasks c).
Proof.
  intros env point c. unfold Client.logout.
  destruct (adapter_logout_spec env (point 0%nat) (accounts c) (loop_tasks c) (log c))
    as (a1 & ts1 & t1 & -> & S1 & L1 & K1 & F1 & M1 & N1 & C1 & O1 & P1).
  destruct (adapter_logout_spec env (point 1%nat) (portfolio c) ts1 t1)
    as (a2 & ts2 & t2 & -> & S2 & L2 & K2 & F2 & M2 & N2 & C2 & O2 & P2).
  destruct (adapter_logout_spec env (point 2%nat) (pnl c) ts2 t2)
    as (a3 & ts3 & t3 & -> & S3 & L3 & K3 & F3 & M3 & N3 & C3 & O3 & P3).
  destruct (adapter_logout_spec env (point 3%nat) (market_data c) ts3 t3)
    as (a4 & ts4 & t4 & -> & S4 & L4 & K4 & F4 & M4 & N4 & C4 & O4 & P4).
  destruct (adapter_logout_spec env (point 4%nat) (orders c) ts4 t4)
    as (a5 & ts5 & t5 & -> & S5 & L5 & K5 & F5 & M5 & N5 & C5 & O5 & P5).
  destruct (adapter_logout_spec env (point 5%nat) (scanner c) ts5 t5)
    as (a6 & ts6 & t6 & -> & S6 & L6 & K6 & F6 & M6 & N6 & C6 & O6 & P6).
  eexists. split; [reflexivity|]. cbn [log loop_tasks adapters accounts portfolio
                                         pnl market_data orders scanner].
  split; [lia|]. split.
  { intros q Hq Hq'.
    rewrite (O6 q Hq Hq'), (O5 q Hq Hq'), (O4 q Hq Hq'), (O3 q Hq Hq'), (O2 q Hq Hq').
    now apply O1. }
  split.
  { intros Hp q Hq.
    destruct (String.eqb tickle_path q) eqn:Eq.
    - apply String.eqb_eq in Eq. subst q.
      rewrite (P6 (Hp _)), (P5 (Hp _)), (P4 (Hp _)), (P3 (Hp _)), (P2 (Hp _)).
      exact (P1 (Hp _)).
    - apply String.eqb_neq in Eq.
      rewrite (O6 q Hq Eq), (O5 q Hq Eq), (O4 q Hq Eq), (O3 q Hq Eq), (O2 q Hq Eq).
      now apply O1. }
  split; [|lia].
  assert (G : forall a a0 ts,
             _session_status a = None -> _last_auth_check a = None ->
             _keep_alive_task a = _keep_alive_task a0 ->
             (forall tid, _keep_alive_task a0 = Some tid -> finished ts tid) ->
             logged_out ts a).
  { intros a a0 ts H1 H2 H3 H4. apply logged_out_intro; auto.
    intros tid Hk. rewrite H3 in Hk. auto. }
  apply Forall_cons; [apply (G a1 (accounts c)); auto 10|].
  apply Forall_cons; [apply (G a2 (portfolio c)); auto 10|].
  apply Forall_cons; [apply (G a3 (pnl c)); auto 10|].
  apply Forall_cons; [apply (G a4 (market_data c)); auto 10|].
  apply Forall_cons; [apply (G a5 (orders c)); auto 10|].
  apply Forall_cons; [apply (G a6 (scanner c)); auto 10|].
  apply Forall_nil.
Qed.

End ClientFacts.
